(** * parse-comments: the [Comments] class of index.js

    A shallow embedding of the tag/type parsing pipeline of
    [src/index.js] and the properties its specification states about it.

    JavaScript values are modelled by small inductive types, exceptions by
    a [Result] type, the mutable fields of a [Comments] instance
    ([tokens], [ast], the emitted events) by explicit state passing, and the
    objects used as dictionaries ([plugins.before], [plugins.after]) by
    finite maps.  The functions of [./lib] and of the npm collaborators
    ([tokenize-comment], [extract-comments]) are not part of index.js: the
    model takes them as the fields of the records [Lib] and [Ext]. *)

From Stdlib Require Import Ascii String.
From stdpp Require Import gmap strings list fin_maps pretty.

Set Default Proof Using "Type".
Set Warnings "-register-all".
Open Scope string_scope.
Open Scope list_scope.

(** ** JavaScript values *)

(** The primitive values that reach a truthiness test, a [===] comparison
    or a string concatenation in index.js. *)
Inductive Val :=
  | VUndefined
  | VNull
  | VBool (b : bool)
  | VNum (n : Z)
  | VStr (s : string)
  | VObject.

(** [if (v)] *)
Definition truthy (v : Val) : bool :=
  match v with
  | VUndefined | VNull => false
  | VBool b => b
  | VNum n => negb (n =? 0)%Z
  | VStr s => negb (String.eqb s "")
  | VObject => true
  end.

(** [v === true] *)
Definition is_true (v : Val) : bool :=
  match v with VBool true => true | _ => false end.

(** [v === false] *)
Definition is_false (v : Val) : bool :=
  match v with VBool false => true | _ => false end.

(** [typeof v === 'string'] *)
Definition is_string (v : Val) : bool :=
  match v with VStr _ => true | _ => false end.

(** ['' + v] *)
Definition to_string (v : Val) : string :=
  match v with
  | VUndefined => "undefined"
  | VNull => "null"
  | VBool true => "true"
  | VBool false => "false"
  | VNum n => pretty n
  | VStr s => s
  | VObject => "[object Object]"
  end.

(** A property of an options object: absent, or present with a value.
    Reading an absent property gives [undefined]. *)
Definition prop (o : option Val) : Val := default VUndefined o.

(** [Object.assign] on one property: the later source wins when it has it. *)
Definition assign {A} (earlier later : option A) : option A :=
  match later with Some _ => later | None => earlier end.

(** [str.slice(1, -1)] *)
Definition slice_1_m1 (s : string) : string :=
  match s with
  | String _ rest => String.substring 0 (String.length rest - 1) rest
  | EmptyString => ""
  end.

(** ** Exceptions *)

(** The two phases of [this.plugins] that [run] is used with. *)
Inductive Phase := Before | After.

Definition phase_name (p : Phase) : string :=
  match p with Before => "before" | After => "after" end.

(** What a [throw] carries: a plain [TypeError], the [TypeError] of [run]
    with its [node] and [type] properties, or an error raised by code
    outside index.js (a collaborator or a registered function). *)
Inductive Exn (Node : Type) :=
  | TypeError (msg : string)
  | PluginTypeError (msg : string) (node : Node) (type : Phase)
  | Raised (name msg : string).
Arguments TypeError {Node} msg.
Arguments PluginTypeError {Node} msg node type.
Arguments Raised {Node} name msg.

Inductive Result (Node A : Type) :=
  | Ok (a : A)
  | Throw (e : Exn Node).
Arguments Ok {Node A} a.
Arguments Throw {Node A} e.

Definition rbind {Node A B} (r : Result Node A) (k : A → Result Node B)
  : Result Node B :=
  match r with Ok a => k a | Throw e => Throw e end.

Declare Scope js_scope.
Delimit Scope js_scope with js.
Notation "'let!' x ':=' r 'in' k" := (rbind r (fun x => k))
  (at level 10, x pattern, r at level 100, k at level 200) : js_scope.
Open Scope js_scope.

(** ** Nodes and handlers *)

(** [run] works on any object with a [type] property, used as a key. *)
Class Typed (Node : Type) := node_type : Node → string.

(** The effect of [fn.call(compiler, node)]: the handler may update the
    node it received in place, and it returns a node or a falsy value. *)
Record Returned (Node : Type) := mkReturned {
  arg_after : Node;
  returned : option Node
}.
Arguments mkReturned {Node} arg_after returned.
Arguments arg_after {Node} r.
Arguments returned {Node} r.

(** An entry of a [before] or [after] array: anything can be pushed. *)
Inductive Handler (Node Compiler : Type) :=
  | Function (f : Compiler → Node → Result Node (Returned Node))
  | NotFunction (v : Val).
Arguments Function {Node Compiler} f.
Arguments NotFunction {Node Compiler} v.

(** The first argument of [before] and [after]: a type name, an array of
    type names, or an object of handlers keyed by type name (in
    [Object.keys] order). *)
Inductive HookTarget (Node Compiler : Type) :=
  | OneType (type : string)
  | ManyTypes (types : list string)
  | HandlerTable (table : list (string * Handler Node Compiler)).
Arguments OneType {Node Compiler} type.
Arguments ManyTypes {Node Compiler} types.
Arguments HandlerTable {Node Compiler} table.

(** ** The data model *)

(** Modelled from the spec: the type AST that [lib.parse.type] builds is
    declared in ./lib, which is not part of index.js; these are the node
    kinds of the specification's data model. *)
Inductive TypeAst :=
  | NameType (name : string)
  | UnionType (elements : list TypeAst)
  | OptionalType (inner : TypeAst)
  | NullableType (inner : TypeAst)
  | NonNullableType (inner : TypeAst)
  | VariadicType (inner : TypeAst)
  | GenericType (name : string) (params : list TypeAst)
  | RecordType (fields : list (string * TypeAst))
  | FunctionType (params : list TypeAst) (result this : option TypeAst).

(** The [type] property of a tag: never assigned, [null], or an AST. *)
Inductive TypeField :=
  | TyUndefined
  | TyNull
  | TyAst (t : TypeAst).

(** [!tag.type] is false exactly for an AST (an object). *)
Definition has_type (t : TypeField) : bool :=
  match t with TyAst _ => true | _ => false end.

Record InlineTag := mkInlineTag {
  i_raw : string;
  i_tag : string;
  i_value : string
}.

(** The result of scanning a description: [{ value, tags }]. *)
Record Inline := mkInline {
  inline_value : string;
  inline_tags : list InlineTag
}.

(** A tag token of the tokenizer: [{ key, raw, value }]. *)
Record Tok := mkTok {
  k_key : option string;
  k_raw : string;
  k_value : string
}.

(** An element of [comment.tags] before parsing: a string or a token. *)
Inductive TagLine :=
  | LineString (s : string)
  | LineTok (tok : Tok).

(** A string-valued property is falsy when it is empty or missing. *)
Definition nonempty (s : string) : bool := negb (String.eqb s "").

Definition present (o : option string) : bool :=
  match o with Some s => nonempty s | None => false end.

Record Tag := mkTag {
  t_title : string;
  t_name : string;
  t_description : string;
  t_rawType : option string;
  t_type : TypeField;
  t_inlineTags : option (list InlineTag);
  t_raw : option TagLine
}.

Definition set_type (tag : Tag) (ty : TypeField) : Tag :=
  mkTag (t_title tag) (t_name tag) (t_description tag) (t_rawType tag) ty
        (t_inlineTags tag) (t_raw tag).

Definition set_inline (tag : Tag) (inline : Inline) : Tag :=
  mkTag (t_title tag) (t_name tag) (inline_value inline) (t_rawType tag)
        (t_type tag) (Some (inline_tags inline)) (t_raw tag).

(** [utils.define(tag, 'rawType', tag.rawType); utils.define(tag, 'raw', raw)]:
    the first keeps the value it re-defines, the second stores the line. *)
Definition define_raw (tag : Tag) (raw : TagLine) : Tag :=
  mkTag (t_title tag) (t_name tag) (t_description tag) (t_rawType tag)
        (t_type tag) (t_inlineTags tag) (Some raw).

(** What the tokenizer returns for one comment body. *)
Record Token := mkToken {
  tk_description : string;
  tk_footer : string;
  tk_examples : list string;
  tk_tags : list TagLine
}.

Record CodeContext := mkCodeContext {
  ctx_name : string;
  ctx_kind : string
}.

Record Code := mkCode {
  code_value : string;
  code_context : CodeContext
}.

(** A comment block as the extractor returns it. *)
Record Block := mkBlock {
  b_type : string;
  b_value : string;
  b_raw : string;
  b_code : Code
}.

(** A comment object; [T] is the type of the elements of its [tags]:
    [TagLine] after tokenizing, [Tag] after [parseTags]. *)
Record Comment (T : Type) := mkComment {
  c_type : string;
  c_value : string;
  c_raw : string;
  c_code : Code;
  c_description : string;
  c_footer : string;
  c_examples : list string;
  c_tags : list T;
  c_inlineTags : option (list InlineTag)
}.
Arguments mkComment {T}.
Arguments c_type {T} c.
Arguments c_value {T} c.
Arguments c_raw {T} c.
Arguments c_code {T} c.
Arguments c_description {T} c.
Arguments c_footer {T} c.
Arguments c_examples {T} c.
Arguments c_tags {T} c.
Arguments c_inlineTags {T} c.

(** [Object.assign({}, comment, tok)] *)
Definition assign_token (comment : Block) (tok : Token) : Comment TagLine :=
  mkComment (b_type comment) (b_value comment) (b_raw comment) (b_code comment)
            (tk_description tok) (tk_footer tok) (tk_examples tok)
            (tk_tags tok) None.

(** [comment.tags = tags] *)
Definition set_tags {T U} (comment : Comment T) (tags : list U) : Comment U :=
  mkComment (c_type comment) (c_value comment) (c_raw comment)
            (c_code comment) (c_description comment) (c_footer comment)
            (c_examples comment) tags (c_inlineTags comment).

(** [comment.description = inline.value; comment.inlineTags = inline.tags] *)
Definition set_comment_inline {T} (comment : Comment T) (inline : Inline)
  : Comment T :=
  mkComment (c_type comment) (c_value comment) (c_raw comment)
            (c_code comment) (inline_value inline) (c_footer comment)
            (c_examples comment) (c_tags comment) (Some (inline_tags inline)).

(** The first argument of [parseComment]: a string or a comment object. *)
Inductive Input :=
  | InString (s : string)
  | InBlock (b : Block).

(** The data properties of an options object.  The function-valued ones
    are in [Options] below: a registered function receives the data part
    only. *)
Record Flags := mkFlags {
  strict : option Val;
  format : option Val;
  stripStars : option Val;
  protected : option Val
}.

Definition no_flags : Flags := mkFlags None None None None.

Definition assign_flags (earlier later : Flags) : Flags :=
  mkFlags (assign (strict earlier) (strict later))
          (assign (format earlier) (format later))
          (assign (stripStars earlier) (stripStars later))
          (assign (protected earlier) (protected later)).

(** A function-valued property: missing, present but not a function, or
    a function. *)
Inductive Slot (F : Type) :=
  | Unset
  | NotFn
  | Fn (f : F).
Arguments Unset {F}.
Arguments NotFn {F}.
Arguments Fn {F} f.

Definition assign_slot {F} (earlier later : Slot F) : Slot F :=
  match later with Unset => earlier | _ => later end.

(** [typeof slot === 'function'] *)
Definition is_function {F} (slot : Slot F) : bool :=
  match slot with Fn _ => true | _ => false end.

(** [/^(\s*\/\*|\*\s*@| {4,})/gm.test(str)] of [tokenize]: at the start of
    a line, white space and then a comment opener, or a star, white space
    and an at-sign, or four spaces. *)
Definition is_space (a : ascii) : bool :=
  bool_decide (a ∈ [" "; "009"; "010"; "011"; "012"; "013"]%char).

Definition is_newline (a : ascii) : bool :=
  bool_decide (a ∈ ["010"; "013"]%char).

Fixpoint skip_spaces (s : string) : string :=
  match s with
  | String a rest => if is_space a then skip_spaces rest else s
  | EmptyString => s
  end.

Definition opener_here (s : string) : bool :=
  String.prefix "/*" (skip_spaces s)
  || match s with
     | String "*" rest => String.prefix "@" (skip_spaces rest)
     | _ => false
     end
  || String.prefix "    " s.

Fixpoint isComment_from (line_start : bool) (s : string) : bool :=
  match s with
  | String a rest =>
      (line_start && opener_here s) || isComment_from (is_newline a) rest
  | EmptyString => false
  end.

Definition isComment (str : string) : bool := isComment_from true str.

Section Model.
Context {Node Compiler : Type} `{!Typed Node}.

Abbreviation Res := (Result Node).
Abbreviation Hooks := (gmap string (list (Handler Node Compiler))).

(** What a function called with [this] bound to the instance can read of
    it: the data options, the accumulated tokens and the hook tables. *)
Record View := mkView {
  view_options : Flags;
  view_tokens : list Token;
  view_before : Hooks;
  view_after : Hooks
}.

(** The named entries of [this.plugins.middleware] and of [options.parse]
    that index.js looks up. *)
Record Parsers := mkParsers {
  p_comment : Slot (View → Input → Flags → Res (option (Comment Tag)));
  p_parseTags : Slot (View → Comment TagLine → Flags → Res (list Tag));
  p_tag : Slot (View → string → Flags → Res (option Tag));
  p_inlineTag : Slot (View → string → Flags → Res Inline);
  p_type : Slot (View → string → option Tag → Flags → Res TypeField);
  p_paramType : Slot (View → string → Flags → Res Val)
}.

Definition no_parsers : Parsers :=
  mkParsers Unset Unset Unset Unset Unset Unset.

(** [Object.assign({}, this.plugins.middleware, opts.parse)] *)
Definition assign_parsers (earlier : Parsers) (later : option Parsers)
  : Parsers :=
  match later with
  | None => earlier
  | Some later =>
      mkParsers (assign_slot (p_comment earlier) (p_comment later))
                (assign_slot (p_parseTags earlier) (p_parseTags later))
                (assign_slot (p_tag earlier) (p_tag later))
                (assign_slot (p_inlineTag earlier) (p_inlineTag later))
                (assign_slot (p_type earlier) (p_type later))
                (assign_slot (p_paramType earlier) (p_paramType later))
  end.

Record Options := mkOptions {
  o_flags : Flags;
  o_parse : option Parsers;
  o_extract : Slot (View → string → Flags → Res (list Block));
  o_preprocess : Slot (View → Block → Flags → Res Block);
  o_isValid : Slot (Block → Res Val)
}.

(** An [options] argument that is [undefined] or [{}]. *)
Definition no_options : Options :=
  mkOptions no_flags None Unset Unset Unset.

(** [Object.assign({}, this.options, options)] *)
Definition assign_options (earlier later : Options) : Options :=
  mkOptions (assign_flags (o_flags earlier) (o_flags later))
            (assign (o_parse earlier) (o_parse later))
            (assign_slot (o_extract earlier) (o_extract later))
            (assign_slot (o_preprocess earlier) (o_preprocess later))
            (assign_slot (o_isValid earlier) (o_isValid later)).

(** The fields of a [Comments] instance that index.js reads or writes,
    and the ['comment'] events it has emitted so far. *)
Record Comments := mkComments {
  this_options : Options;
  ast : option (list (Comment Tag));
  tokens : list Token;
  plugins_middleware : Parsers;
  plugins_before : Hooks;
  plugins_after : Hooks;
  emitted : list (string * Comment Tag)
}.

(** [new Comments(options)] *)
Definition new_Comments (opts : Options) : Comments :=
  mkComments opts None [] no_parsers ∅ ∅ [].

Definition view_of (this : Comments) : View :=
  mkView (o_flags (this_options this)) (tokens this)
         (plugins_before this) (plugins_after this).

(** The functions of ./lib that index.js calls. *)
Record Lib := mkLib {
  lib_parse_tag : Tok → Res (option Tag);
  lib_parse_type : string → option Tag → Flags → Res TypeField;
  lib_parse_inline : string → Flags → Res Inline;
  lib_allows_type : Tok → bool;
  lib_expects_type : Tag → bool;
  lib_normalize_tag : Tag → Flags → Res (option Tag);
  lib_normalize_examples : Comment TagLine → Flags → Res (Comment TagLine);
  lib_validate_tag : Tag → Flags → Res (option Tag);
  lib_format : View → Comment Tag → Flags → Res (Comment Tag);
  utils_copyNode : Block → Block;
  utils_copyNode_code : Code → Code;
  utils_copyNode_context : CodeContext → CodeContext;
  utils_isValidBlockComment : Block → Flags → bool;
  utils_isProtectedComment : string → bool;
  utils_isConfigComment : string → bool
}.

(** The npm collaborators: [tokenize-comment] and [extract-comments]. *)
Record Ext := mkExt {
  ext_tokenize : string → Flags → Res Token;
  ext_extract_block : string → Flags → Res (list Block)
}.

End Model.

Arguments View : clear implicits.
Arguments Parsers : clear implicits.
Arguments Options : clear implicits.
Arguments Comments : clear implicits.
Arguments Lib : clear implicits.
Arguments Ext : clear implicits.

(** ** The state of an instance *)

Section State.
Context {Node Compiler : Type}.

Abbreviation Res := (Result Node).
Abbreviation Hooks := (gmap string (list (Handler Node Compiler))).
Abbreviation Self := (Comments Node Compiler).

(** A method that may write to the instance: it ends with a result and
    the instance as it left it.  [OutOfFuel] is the model's bound on the
    depth of nested [parseComment] calls, not a JavaScript outcome. *)
Inductive Outcome (A : Type) :=
  | Done (r : Res A) (this : Self)
  | OutOfFuel.
Arguments Done {A} r this.
Arguments OutOfFuel {A}.

Definition M (A : Type) : Type := Self → Outcome A.

Definition ret {A} (a : A) : M A := fun this => Done (Ok a) this.

Definition throw {A} (e : Exn Node) : M A := fun this => Done (Throw e) this.

Definition mbind {A B} (m : M A) (k : A → M B) : M B :=
  fun this =>
    match m this with
    | Done (Ok a) this' => k a this'
    | Done (Throw e) this' => Done (Throw e) this'
    | OutOfFuel => OutOfFuel
    end.

(** A method that only reads the instance. *)
Definition reading {A} (r : Self → Res A) : M A :=
  fun this => Done (r this) this.

(** [this.tokens.push(tok)] *)
Definition push_token (tok : Token) : M unit :=
  fun this =>
    Done (Ok ())
      (mkComments (this_options this) (ast this) (tokens this ++ [tok])
         (plugins_middleware this) (plugins_before this)
         (plugins_after this) (emitted this)).

(** [this.ast = comments] *)
Definition set_ast (comments : list (Comment Tag)) : M unit :=
  fun this =>
    Done (Ok ())
      (mkComments (this_options this) (Some comments) (tokens this)
         (plugins_middleware this) (plugins_before this)
         (plugins_after this) (emitted this)).

(** [this.emit(name, comment)]: the event joins the trace of the
    instance; what its listeners do is outside the model. *)
Definition emit (name : string) (comment : Comment Tag) : M unit :=
  fun this =>
    Done (Ok ())
      (mkComments (this_options this) (ast this) (tokens this)
         (plugins_middleware this) (plugins_before this)
         (plugins_after this) (emitted this ++ [(name, comment)])).

Definition set_before (this : Self) (table : Hooks) : Self :=
  mkComments (this_options this) (ast this) (tokens this)
    (plugins_middleware this) table (plugins_after this) (emitted this).

Definition set_after (this : Self) (table : Hooks) : Self :=
  mkComments (this_options this) (ast this) (tokens this)
    (plugins_middleware this) (plugins_before this) table (emitted this).

(** [this.plugins[type]] *)
Definition plugins (this : Self) (type : Phase) : Hooks :=
  match type with
  | Before => plugins_before this
  | After => plugins_after this
  end.

End State.

Arguments Outcome : clear implicits.
Arguments M : clear implicits.
Arguments Done {Node Compiler A} r this.
Arguments OutOfFuel {Node Compiler A}.

Notation "'do!' x ':=' m 'in' k" := (mbind m (fun x => k))
  (at level 10, x pattern, m at level 100, k at level 200) : js_scope.

(** ** The methods of [Comments] *)

Section Methods.
Context {Node Compiler : Type} `{!Typed Node}.
Context (lib : Lib Node Compiler) (ext : Ext Node).

Abbreviation Res := (Result Node).
Abbreviation Hooks := (gmap string (list (Handler Node Compiler))).
Abbreviation Self := (Comments Node Compiler).

(** [before[type] = before[type] || []; before[type].push(fn)] *)
Definition push_handler (table : Hooks) (type : string)
    (fn : Handler Node Compiler) : Hooks :=
  <[type := default [] (table !! type) ++ [fn]]> table.

(** [before(type, fn)] *)
Definition before (this : Self) (type : HookTarget Node Compiler)
    (fn : Handler Node Compiler) : Self :=
  match type with
  | HandlerTable table =>
      foldl (fun this '(key, handler) =>
               set_before this (push_handler (plugins_before this) key handler))
            this table
  | ManyTypes types =>
      foldl (fun this key =>
               set_before this (push_handler (plugins_before this) key fn))
            this types
  | OneType type =>
      set_before this (push_handler (plugins_before this) type fn)
  end.

(** [after(type, fn)] *)
Definition after (this : Self) (type : HookTarget Node Compiler)
    (fn : Handler Node Compiler) : Self :=
  match type with
  | HandlerTable table =>
      foldl (fun this '(key, handler) =>
               set_after this (push_handler (plugins_after this) key handler))
            this table
  | ManyTypes types =>
      foldl (fun this key =>
               set_after this (push_handler (plugins_after this) key fn))
            this types
  | OneType type =>
      set_after this (push_handler (plugins_after this) type fn)
  end.

(** One turn of the loop of [run]: the type test, then
    [node = fn.call(compiler, node) || node]. *)
Definition call_plugin (type : Phase) (compiler : Compiler)
    (fn : Handler Node Compiler) (node : Node) : Res Node :=
  match fn with
  | NotFunction v =>
      Throw (PluginTypeError ("expected plugin to be a function:" +:+ to_string v)
                             node type)
  | Function f =>
      let! r := f compiler node in
      Ok (default (arg_after r) (returned r))
  end.

Fixpoint run_loop (type : Phase) (compiler : Compiler)
    (fns : list (Handler Node Compiler)) (node : Node) : Res Node :=
  match fns with
  | [] => Ok node
  | fn :: rest =>
      let! node := call_plugin type compiler fn node in
      run_loop type compiler rest node
  end.

(** [run(type, compiler)] *)
Definition run (this : Self) (type : Phase) (compiler : Compiler)
  : Node → Res Node :=
  let plugins := plugins this type in
  fun node =>
    let fns := default [] (plugins !! node_type node) in
    run_loop type compiler fns node.

(** [tokenize(input, options)] *)
Definition tokenize (this : Self) (input : string) (options : Options Node Compiler)
  : Res Token :=
  let opts := o_flags (assign_options (this_options this) options) in
  let opts :=
    match prop (stripStars opts) with
    | VUndefined =>
        if nonempty input && negb (isComment input)
        then mkFlags (strict opts) (format opts) (Some (VBool false))
                     (protected opts)
        else opts
    | _ => opts
    end in
  ext_tokenize ext input opts.

(** [parseInlineTags(str, options)] *)
Definition parseInlineTags (this : Self) (str : Val)
    (options : Options Node Compiler) : Res Inline :=
  match str with
  | VStr str =>
      let opts := assign_options (this_options this) options in
      let parsers := assign_parsers (plugins_middleware this) (o_parse opts) in
      match p_inlineTag parsers with
      | Fn inlineTag => inlineTag (view_of this) str (o_flags opts)
      | _ => lib_parse_inline lib str (o_flags opts)
      end
  | _ => Throw (TypeError "expected a string")
  end.

(** [parseType(str, tag, options)] *)
Definition parseType (this : Self) (str : Val) (tag : option Tag)
    (options : Options Node Compiler) : Res TypeField :=
  match str with
  | VStr str =>
      let opts := assign_options (this_options this) options in
      let parsers := assign_parsers (plugins_middleware this) (o_parse opts) in
      match p_type parsers with
      | Fn type => type (view_of this) str tag (o_flags opts)
      | _ => lib_parse_type lib str tag (o_flags opts)
      end
  | _ => Throw (TypeError "expected a string")
  end.

(** [parseParamType(str, options)] *)
Definition parseParamType (this : Self) (str : Val)
    (options : Options Node Compiler) : Res Val :=
  match str with
  | VStr str =>
      let opts := assign_options (this_options this) options in
      let parsers := assign_parsers (plugins_middleware this) (o_parse opts) in
      match p_paramType parsers with
      | Fn paramType => paramType (view_of this) str (o_flags opts)
      | _ => Ok (VStr str)
      end
  | _ => Throw (TypeError "expected a string")
  end.

(** [if (typeof tok === 'string') tok = { raw: tok, value: tok }] *)
Definition as_tok (tok : TagLine) : Tok :=
  match tok with
  | LineString s => mkTok None s s
  | LineTok tok => tok
  end.

(** The end of [parseTag], from [lib.normalize.tag] on. *)
Definition parseTag_finish (this : Self) (opts : Options Node Compiler)
    (tag : Tag) : Res (option Tag) :=
  let! tag := lib_normalize_tag lib tag (o_flags opts) in
  match tag with
  | None => Ok None
  | Some tag =>
    let! tag := lib_validate_tag lib tag (o_flags opts) in
    match tag with
    | None => Ok None
    | Some tag =>
      if nonempty (t_description tag)
      then
        let! inline := parseInlineTags this (VStr (t_description tag)) opts in
        Ok (Some (set_inline tag inline))
      else Ok (Some tag)
    end
  end.

(** [parseTag(tok, options)] *)
Definition parseTag (this : Self) (tok : TagLine)
    (options : Options Node Compiler) : Res (option Tag) :=
  let opts := assign_options (this_options this) options in
  let parsers := assign_parsers (plugins_middleware this) (o_parse opts) in
  let tok := as_tok tok in
  match p_tag parsers with
  | Fn tag => tag (view_of this) (k_raw tok) (o_flags opts)
  | _ =>
    match lib_parse_tag lib tok with
    | Throw err =>
        if truthy (prop (strict (o_flags opts))) then Throw err else Ok None
    | Ok None => Ok None
    | Ok (Some tag) =>
      if present (t_rawType tag) && negb (lib_allows_type lib tok)
      then Ok None
      else
        let! tag :=
          (if present (t_rawType tag)
           then
             let! type :=
               parseType this (VStr (slice_1_m1 (default "" (t_rawType tag))))
                         (Some tag) options in
             Ok (set_type tag type)
           else Ok tag) in
        if lib_expects_type lib tag && negb (has_type (t_type tag))
        then
          if is_true (prop (strict (o_flags opts)))
          then Ok None
          else parseTag_finish this opts (set_type tag TyNull)
        else parseTag_finish this opts tag
    end
  end.

(** The loop of [parseTags] over [comment.tags]. *)
Fixpoint parseTags_loop (this : Self) (opts : Options Node Compiler)
    (lines : list TagLine) (tags : list Tag) : Res (list Tag) :=
  match lines with
  | [] => Ok tags
  | raw :: rest =>
      let! tag := parseTag this raw opts in
      match tag with
      | Some tag => parseTags_loop this opts rest (tags ++ [define_raw tag raw])
      | None => parseTags_loop this opts rest tags
      end
  end.

(** [parseTags(comment, options)] *)
Definition parseTags (this : Self) (comment : Comment TagLine)
    (options : Options Node Compiler) : Res (list Tag) :=
  let opts := assign_options (this_options this) options in
  let parsers := assign_parsers (plugins_middleware this) (o_parse opts) in
  match p_parseTags parsers with
  | Fn parseTags => parseTags (view_of this) comment (o_flags opts)
  | _ => parseTags_loop this opts (c_tags comment) []
  end.

(** [isValid(comment, options)]; the argument is an object by its type. *)
Definition isValid (this : Self) (comment : Block)
    (options : Options Node Compiler) : Res Val :=
  let opts := assign_options (this_options this) options in
  match o_isValid opts with
  | Fn isValid => isValid comment
  | _ =>
      if negb (utils_isValidBlockComment lib comment (o_flags options))
      then Ok (VBool false)
      else if is_false (prop (protected (o_flags opts)))
              && utils_isProtectedComment lib (b_raw comment)
      then Ok (VBool false)
      else Ok (VBool (negb (utils_isConfigComment lib (b_value comment))))
  end.

(** [preprocess(comment, options)] *)
Definition preprocess (this : Self) (comment : Block)
    (options : Options Node Compiler) : Res Block :=
  let opts := assign_options (this_options this) options in
  match o_preprocess opts with
  | Fn preprocess => preprocess (view_of this) comment (o_flags opts)
  | _ =>
      let obj := utils_copyNode lib comment in
      let code := utils_copyNode_code lib (b_code comment) in
      let context := utils_copyNode_context lib (code_context (b_code comment)) in
      Ok (mkBlock (b_type obj) (b_value obj) (b_raw obj)
                  (mkCode (code_value code) context))
  end.

(** The loop of [extract]; [fn] returns an object, so that
    [fn.call(this, comment) || comment] is what it returns. *)
Fixpoint extract_loop (fn : Block → M Node Compiler (Comment Tag))
    (options : Options Node Compiler) (comments : list Block)
    (res : list (Comment Tag)) : M Node Compiler (list (Comment Tag)) :=
  match comments with
  | [] => ret res
  | block :: rest =>
      do! valid := reading (fun this => isValid this block options) in
      if is_false valid
      then extract_loop fn options rest res
      else
        do! comment := reading (fun this => preprocess this block options) in
        do! comment := fn comment in
        extract_loop fn options rest (res ++ [comment])
  end.

(** [extract(str, options, fn)] with [options] an object and [fn] a
    function, as [parse] calls it. *)
Definition extract (str : string) (options : Options Node Compiler)
    (fn : Block → M Node Compiler (Comment Tag))
  : M Node Compiler (list (Comment Tag)) :=
  fun this =>
    let opts := assign_options (this_options this) options in
    (do! comments :=
       match o_extract opts with
       | Fn extract =>
           reading (fun this => extract (view_of this) str (o_flags opts))
       | _ => reading (fun _ => ext_extract_block ext str (o_flags opts))
       end in
     extract_loop fn options comments []) this.

(** [parse(str, options)], given the method it calls back. *)
Definition parse_with
    (parseComment : Input → Options Node Compiler → M Node Compiler (Comment Tag))
    (str : string) (options : Options Node Compiler)
  : M Node Compiler (list (Comment Tag)) :=
  do! comments :=
    extract str options (fun comment => parseComment (InBlock comment) options) in
  do! _ := set_ast comments in
  ret comments.

(** [parseComment(comment, options)].  [fuel] bounds the nesting of the
    calls that go through [parse]. *)
Fixpoint parseComment (fuel : nat) (comment : Input)
    (options : Options Node Compiler) : M Node Compiler (Comment Tag) :=
  match fuel with
  | 0 => fun _ => OutOfFuel
  | S fuel => fun this =>
    let opts := assign_options (this_options this) options in
    let parsers := assign_parsers (plugins_middleware this) (o_parse opts) in
    (do! comment :=
       match p_comment parsers, comment with
       | Fn parser, _ =>
           reading (fun this => parser (view_of this) comment (o_flags opts))
       | _, InString str =>
           do! comments := parse_with (parseComment fuel) str options in
           ret (head comments)
       | _, InBlock block =>
           do! tok := reading (fun this => tokenize this (b_value block) opts) in
           do! _ := push_token tok in
           let comment := assign_token block tok in
           do! comment :=
             reading (fun _ => lib_normalize_examples lib comment (o_flags opts)) in
           do! tags := reading (fun this => parseTags this comment options) in
           ret (Some (set_tags comment tags))
       end in
     do! comment :=
       match comment with
       | None =>
           throw (TypeError "Cannot read properties of undefined (reading 'description')")
       | Some comment =>
           if nonempty (c_description comment)
           then
             do! inline :=
               reading (fun this =>
                          parseInlineTags this (VStr (c_description comment)) opts) in
             ret (set_comment_inline comment inline)
           else ret comment
       end in
     do! comment :=
       (if is_true (prop (format (o_flags opts)))
        then reading (fun this => lib_format lib (view_of this) comment (o_flags opts))
        else ret comment) in
     do! _ := emit "comment" comment in
     ret comment) this
  end.

(** [parse(str, options)] *)
Definition parse (fuel : nat) (str : string) (options : Options Node Compiler)
  : M Node Compiler (list (Comment Tag)) :=
  parse_with (parseComment fuel) str options.

(** [static parse(str, options)] *)
Definition static_parse (fuel : nat) (str : string)
    (options : Options Node Compiler)
  : Outcome Node Compiler (list (Comment Tag)) :=
  let comments := new_Comments options in
  parse fuel str no_options comments.

(** [static parseType(str, options)]: the instance method is called with
    [str] alone. *)
Definition static_parseType (str : Val) (options : Options Node Compiler)
  : Res TypeField :=
  let comments := new_Comments options in
  parseType comments str None no_options.

End Methods.

(** ** A sample of the collaborators

    The theorems below hold for every [Lib] and [Ext].  The examples need
    one of each to run on. *)

Module Sample.

(** The nodes a hook is registered for: a comment, dispatched as
    ["comment"], or a tag, dispatched on its title. *)
Inductive SampleNode :=
  | NComment (c : Comment Tag)
  | NTag (t : Tag).

#[export] Instance sample_typed : Typed SampleNode :=
  fun node =>
    match node with
    | NComment _ => "comment"
    | NTag t => t_title t
    end.

Abbreviation Res := (Result SampleNode).

Fixpoint lines (s : string) : list string :=
  match s with
  | EmptyString => [""]
  | String a rest =>
      if is_newline a then "" :: lines rest
      else match lines rest with
           | l :: ls => String a l :: ls
           | [] => [String a ""]
           end
  end.

(** The first white-space-delimited word and what follows it. *)
Fixpoint take_word (s : string) : string * string :=
  match s with
  | EmptyString => ("", "")
  | String a rest =>
      if is_space a then ("", s)
      else let '(w, after) := take_word rest in (String a w, after)
  end.

(** The balanced [{...}] span that [s] starts with, and what follows it;
    [depth] counts the braces that are open. *)
Fixpoint take_balanced (depth : nat) (s : string) : option (string * string) :=
  match s with
  | EmptyString => None
  | String a rest =>
      if Ascii.eqb a "{" then
        '(lit, after) ← take_balanced (S depth) rest; Some (String a lit, after)
      else if Ascii.eqb a "}" then
        match depth with
        | 0 => None
        | 1 => Some ("}", rest)
        | S depth =>
            '(lit, after) ← take_balanced depth rest; Some (String a lit, after)
        end
      else
        '(lit, after) ← take_balanced depth rest; Some (String a lit, after)
  end.

Definition strip_at (s : string) : string :=
  match s with String "@" rest => rest | _ => s end.

Fixpoint strip_stars (s : string) : string :=
  match s with
  | String "*" rest => strip_stars rest
  | _ => s
  end.

(** Modelled from the spec: the alias table of lib/normalize.js is not
    part of index.js; [arg] and [argument] stand for [param], [return]
    for [returns]. *)
Definition canonical (title : string) : string :=
  if bool_decide (title ∈ ["arg"; "argument"]) then "param"
  else if bool_decide (title = "return") then "returns"
  else title.

(** Modelled from the spec: the policy table of lib/validate.js,
    lib/allows.js and lib/expects.js is not part of index.js; [param],
    [returns] and [type] require a type, [constructor] and [private]
    forbid one, [param] takes a name. *)
Definition type_required (title : string) : bool :=
  bool_decide (canonical title ∈ ["param"; "returns"; "type"]).

Definition type_forbidden (title : string) : bool :=
  bool_decide (canonical title ∈ ["constructor"; "private"]).

Definition takes_name (title : string) : bool :=
  bool_decide (canonical title = "param").

Definition title_of (tok : Tok) : string :=
  match k_key tok with
  | Some key => key
  | None => fst (take_word (strip_at (skip_spaces (k_raw tok))))
  end.

(** Modelled from the spec: lib/parse/tag.js is not part of index.js; a
    tag line is split into title, bracketed type literal, name and
    description, and unbalanced braces make it fail. *)
Definition parse_tag (tok : Tok) : Res (option Tag) :=
  let '(title, rest) := take_word (strip_at (skip_spaces (k_raw tok))) in
  if negb (nonempty title) then Ok None
  else
    let rest := skip_spaces rest in
    let! (rawType, rest) :=
      (if String.prefix "{" rest
       then match take_balanced 0 rest with
            | Some (lit, after) => Ok (Some lit, skip_spaces after)
            | None => Throw (Raised "TagSyntaxError" "unbalanced braces")
            end
       else Ok (None, rest)) in
    let '(name, rest) :=
      if takes_name title then take_word rest else ("", rest) in
    Ok (Some (mkTag title name (skip_spaces rest) rawType TyUndefined None None)).

(** Modelled from the spec: lib/allows.js is not part of index.js; a
    type is allowed unless the title is in the type-forbidden class. *)
Definition allows_type (tok : Tok) : bool := negb (type_forbidden (title_of tok)).

(** Modelled from the spec: lib/expects.js is not part of index.js; a
    type is expected for the titles of the type-required class. *)
Definition expects_type (tag : Tag) : bool := type_required (t_title tag).

(** Modelled from the spec: [lib.normalize.tag] is not part of index.js;
    it replaces an alias by the canonical title. *)
Definition normalize_tag (tag : Tag) (opts : Flags) : Res (option Tag) :=
  Ok (Some (mkTag (canonical (t_title tag)) (t_name tag) (t_description tag)
                  (t_rawType tag) (t_type tag) (t_inlineTags tag) (t_raw tag))).

(** Modelled from the spec: [lib.validate.tag] is not part of index.js;
    a type on a tag of the type-forbidden class is discarded and the tag
    kept, and a tag with an unknown title passes unchanged. *)
Definition validate_tag (tag : Tag) (opts : Flags) : Res (option Tag) :=
  if type_forbidden (t_title tag) then Ok (Some (set_type tag TyNull))
  else Ok (Some tag).

Fixpoint split_on (sep : ascii) (s : string) : list string :=
  match s with
  | EmptyString => [""]
  | String a rest =>
      if Ascii.eqb a sep then "" :: split_on sep rest
      else match split_on sep rest with
           | l :: ls => String a l :: ls
           | [] => [String a ""]
           end
  end.

Fixpoint drop_last (s : string) : string :=
  match s with
  | EmptyString => ""
  | String a EmptyString => ""
  | String a rest => String a (drop_last rest)
  end.

Fixpoint ends_with (c : ascii) (s : string) : bool :=
  match s with
  | EmptyString => false
  | String a EmptyString => Ascii.eqb a c
  | String _ rest => ends_with c rest
  end.

(** Every bracket that is opened is closed, and none is closed first. *)
Fixpoint brackets_balanced (depth : nat) (s : string) : bool :=
  match s with
  | EmptyString => bool_decide (depth = 0)
  | String a rest =>
      if bool_decide (a ∈ ["("; "<"; "{"; "["]%char)
      then brackets_balanced (S depth) rest
      else if bool_decide (a ∈ [")"; ">"; "}"; "]"]%char)
      then match depth with
           | 0 => false
           | S depth => brackets_balanced depth rest
           end
      else brackets_balanced depth rest
  end.

(** Modelled from the spec: lib/parse/type.js is not part of index.js.
    This is the fragment of its grammar that the examples use: names,
    unions of names, a trailing [=] for an optional type, the empty
    literal, and the failure on unbalanced brackets and on a modifier
    without a base type. *)
Definition parse_type (str : string) (tag : option Tag) (opts : Flags)
  : Res TypeField :=
  if negb (brackets_balanced 0 str)
  then Throw (Raised "TypeSyntaxError" "unbalanced brackets")
  else if negb (nonempty str) then Ok (TyAst (RecordType []))
  else
    let optional := ends_with "=" str in
    let base := if optional then drop_last str else str in
    let names := split_on "|" base in
    if bool_decide ("" ∈ names)
    then Throw (Raised "TypeSyntaxError" "expected a type")
    else
      let type :=
        match names with
        | [name] => NameType name
        | _ => UnionType (NameType <$> names)
        end in
      Ok (TyAst (if optional then OptionalType type else type)).

Definition inline_of (lit : string) : InlineTag :=
  let '(tag, value) := take_word (strip_at (slice_1_m1 lit)) in
  mkInlineTag lit tag (skip_spaces value).

(** The markers of [s]; [skip] characters belong to a marker already
    found. *)
Fixpoint scan_inline (skip : nat) (s : string) : list InlineTag :=
  match s with
  | EmptyString => []
  | String _ rest =>
      match skip with
      | S skip => scan_inline skip rest
      | 0 =>
          if String.prefix "{@" s
          then match take_balanced 0 s with
               | Some (lit, _) =>
                   inline_of lit :: scan_inline (String.length lit - 1) rest
               | None => scan_inline 0 rest
               end
          else scan_inline 0 rest
      end
  end.

(** Modelled from the spec: lib/parse/inline.js is not part of index.js;
    one scan for balanced [{@tag value}] markers, the text left as it is,
    an unterminated marker giving no reference. *)
Definition parse_inline (str : string) (opts : Flags) : Res Inline :=
  Ok (mkInline str (scan_inline 0 str)).

(** Modelled from the spec: lib/normalize.js and lib/format.js are not
    part of index.js, and the spec leaves the examples and the formatter
    opaque; the sample passes the comment through. *)
Definition normalize_examples (comment : Comment TagLine) (opts : Flags)
  : Res (Comment TagLine) := Ok comment.

Definition format_comment {V : Type} (this : V) (comment : Comment Tag)
    (opts : Flags) : Res (Comment Tag) := Ok comment.

Fixpoint contains (needle s : string) : bool :=
  String.prefix needle s
  || match s with
     | EmptyString => false
     | String _ rest => contains needle rest
     end.

(** Modelled from the spec: lib/utils.js is not part of index.js; a block
    is valid when it opens with a slash and two stars, protected when a
    bang follows the opener, and a configuration comment when it names a
    linter, as the comment on [isValid] says. *)
Definition isValidBlockComment (comment : Block) (opts : Flags) : bool :=
  String.prefix "/**" (b_raw comment).

Definition isProtectedComment (raw : string) : bool :=
  String.prefix "/*!" raw || String.prefix "/**!" raw.

Definition isConfigComment (value : string) : bool :=
  contains "jslint" value || contains "jshint" value
  || contains "eshint" value || contains "eslint" value.

Definition sample_lib : Lib SampleNode unit :=
  mkLib parse_tag parse_type parse_inline allows_type expects_type
        normalize_tag normalize_examples validate_tag format_comment
        id id id isValidBlockComment isProtectedComment isConfigComment.

(** The tokenizer's pass over the lines: the description before the
    first tag, then the tag lines, a line without an at-sign continuing
    the tag before it. *)
Definition add_line (stripStars : bool) (acc : list string * list Tok)
    (line : string) : list string * list Tok :=
  let line :=
    if stripStars then skip_spaces (strip_stars (skip_spaces line))
    else skip_spaces line in
  let '(description, tags) := acc in
  if String.prefix "@" line
  then
    let '(key, value) := take_word (strip_at line) in
    (description, tags ++ [mkTok (Some key) line (skip_spaces value)])
  else if negb (nonempty line) then acc
  else
    match reverse tags with
    | [] => (description ++ [line], tags)
    | last :: before =>
        (description,
         reverse before
           ++ [mkTok (k_key last) (k_raw last +:+ " " +:+ line)
                     (k_value last +:+ " " +:+ line)])
    end.

Fixpoint join_lines (ls : list string) : string :=
  match ls with
  | [] => ""
  | [l] => l
  | l :: rest => l +:+ " " +:+ join_lines rest
  end.

(** Modelled from the spec: the tokenizer is the collaborator
    tokenize-comment; it returns the description and the raw tag lines,
    and the sample has no examples and no footer. *)
Definition tokenize_comment (value : string) (opts : Flags) : Res Token :=
  let '(description, tags) :=
    foldl (add_line (negb (is_false (prop (stripStars opts))))) ([], [])
          (lines value) in
  Ok (mkToken (join_lines description) "" [] (LineTok <$> tags)).

(** The bodies of the slash-star blocks of [s]; [cur] is the body of the
    block that is open, [skip] is set on the second character of a
    delimiter. *)
Fixpoint scan_blocks (s : string) (cur : option string) (skip : bool)
  : list string :=
  match s with
  | EmptyString => []
  | String a rest =>
      if skip then scan_blocks rest cur false
      else
        match cur with
        | None =>
            if String.prefix "/*" s then scan_blocks rest (Some "") true
            else scan_blocks rest None false
        | Some body =>
            if String.prefix "*/" s then body :: scan_blocks rest None true
            else scan_blocks rest (Some (body +:+ String a "")) false
        end
  end.

Fixpoint unlines (ls : list string) : string :=
  match ls with
  | [] => ""
  | [l] => l
  | l :: rest => l +:+ String "010" (unlines rest)
  end.

(** The text of a block without the stars that lead its lines. *)
Definition unstar (body : string) : string :=
  unlines ((fun l => skip_spaces (strip_stars (skip_spaces l))) <$> lines body).

(** Modelled from the spec: the extractor is the collaborator
    extract-comments; it returns the comment blocks of the source text in
    order, here without a code association. *)
Definition extract_block (str : string) (opts : Flags) : Res (list Block) :=
  Ok ((fun body =>
         mkBlock "BlockComment" (unstar body) ("/*" +:+ body +:+ "*/")
                 (mkCode "" (mkCodeContext "" "")))
      <$> scan_blocks str None false).

Definition sample_ext : Ext SampleNode := mkExt tokenize_comment extract_block.

(** *** Registered functions to run the examples with *)

Definition uppercase_ascii (a : ascii) : ascii :=
  let n := nat_of_ascii a in
  if (97 <=? n)%nat && (n <=? 122)%nat then ascii_of_nat (n - 32) else a.

Fixpoint uppercase (s : string) : string :=
  match s with
  | EmptyString => EmptyString
  | String a rest => String (uppercase_ascii a) (uppercase rest)
  end.

Definition rename (tag : Tag) (name : string) : Tag :=
  mkTag (t_title tag) name (t_description tag) (t_rawType tag) (t_type tag)
        (t_inlineTags tag) (t_raw tag).

(** [function(tag) { tag.name = tag.name.toUpperCase(); }] *)
Definition upper_name : Handler SampleNode unit :=
  Function (fun _ node =>
    match node with
    | NTag tag => Ok (mkReturned (NTag (rename tag (uppercase (t_name tag)))) None)
    | NComment _ => Ok (mkReturned node None)
    end).

(** [function(tag) { return { ...tag, name: tag.name + '!' }; }] *)
Definition exclaim_name : Handler SampleNode unit :=
  Function (fun _ node =>
    match node with
    | NTag tag => Ok (mkReturned node (Some (NTag (rename tag (t_name tag +:+ "!")))))
    | NComment _ => Ok (mkReturned node None)
    end).

(** [function() {}] *)
Definition do_nothing : Handler SampleNode unit :=
  Function (fun _ node => Ok (mkReturned node None)).

(** A tag middleware that reads the instance it is called on:
    [function(raw) { return { title: String(this.tokens.length) }; }] *)
Definition count_tokens (this : View SampleNode unit) (raw : string)
    (opts : Flags) : Res (option Tag) :=
  Ok (Some (mkTag (pretty (length (view_tokens this))) "" "" None TyUndefined
                  None None)).

Definition strict_flags : Flags := mkFlags (Some (VBool true)) None None None.

Definition strict_options : Options SampleNode unit :=
  mkOptions strict_flags None Unset Unset Unset.

Definition fresh : Comments SampleNode unit := new_Comments no_options.

Definition param_tag : Tag :=
  mkTag "param" "name" "The name to use for foo" (Some "{String}")
        (TyAst (NameType "String")) (Some []) None.

Definition no_code : Code := mkCode "" (mkCodeContext "" "").

(** The block of a comment with a description and one [param] tag. *)
Definition one_param : Block :=
  mkBlock "BlockComment"
    ("Says hello." +:+ String "010" "@param {String} name The name to use for foo")
    ("/** Says hello." +:+ String "010" " * @param {String} name The name to use for foo */")
    no_code.

(** [function() { throw new Error('boom'); }] *)
Definition boom : Handler SampleNode unit :=
  Function (fun _ _ => Throw (Raised "Error" "boom")).

(** A [type] middleware that answers every literal with [Object]. *)
Definition always_object (this : View SampleNode unit) (str : string)
    (tag : option Tag) (opts : Flags) : Res TypeField :=
  Ok (TyAst (NameType "Object")).

(** A [type] middleware that gives no value. *)
Definition no_value (this : View SampleNode unit) (str : string)
    (tag : option Tag) (opts : Flags) : Res TypeField :=
  Ok TyUndefined.

(** [comments.set('type', always_object)] on a new instance. *)
Definition objecting : Comments SampleNode unit :=
  mkComments no_options None []
    (mkParsers Unset Unset Unset Unset (Fn always_object) Unset) ∅ ∅ [].

(** [comments.set('type', no_value)] on a new instance. *)
Definition undefining : Comments SampleNode unit :=
  mkComments no_options None []
    (mkParsers Unset Unset Unset Unset (Fn no_value) Unset) ∅ ∅ [].

(** The lines of a comment object. *)
Definition lines_only (lines : list TagLine) : Comment TagLine :=
  mkComment "BlockComment" "" "" no_code "" "" [] lines None.

(** [{ parse: parse }] *)
Definition parse_options (parse : Parsers SampleNode unit)
  : Options SampleNode unit :=
  mkOptions no_flags (Some parse) Unset Unset Unset.

(** [{ isValid: function() {} }]: an override that returns [undefined]. *)
Definition undecided_options : Options SampleNode unit :=
  mkOptions no_flags None Unset Unset (Fn (fun _ => Ok VUndefined)).

(** The block of a comment whose one tag has an unbalanced parenthesis
    in its type literal. *)
Definition bad_type : Block :=
  mkBlock "BlockComment" "@param {function(...a} x"
          "/** @param {function(...a} x */" no_code.

(** A source text whose only comment configures a linter. *)
Definition config_source : string :=
  "/** eslint-disable no-console */" +:+ String "010" "console.log(1);".

(** A comment, then one with an unbalanced parenthesis in a type. *)
Definition failing_source : string :=
  "/** First. */" +:+ String "010" "function a() {}"
  +:+ String "010" "/** @param {function(...a} x */"
  +:+ String "010" "function b(x) {}".

(** Two comments, before two functions. *)
Definition two_comments_source : string :=
  "/** First. */" +:+ String "010" "function a() {}"
  +:+ String "010" "/** Second."
  +:+ String "010" " * @returns {Number} */"
  +:+ String "010" "function b() {}".

(** The source text of that comment, before a function. *)
Definition one_param_source : string :=
  "/** Says hello." +:+ String "010" " * @param {String} name The name to use for foo"
  +:+ String "010" " */" +:+ String "010" "function hello(name) {}".

(** [comments.before('param', upper_name)] on a new instance. *)
Definition hooked : Comments SampleNode unit :=
  before fresh (OneType "param") upper_name.

(** [comments.set('tag', count_tokens)] on a new instance. *)
Definition counting : Comments SampleNode unit :=
  mkComments no_options None []
    (mkParsers Unset Unset (Fn count_tokens) Unset Unset Unset) ∅ ∅ [].

(** A linter configuration, then the two comments. *)
Definition three_blocks_source : string :=
  "/** eslint-disable no-console */" +:+ String "010" two_comments_source.

End Sample.

(** ** The vocabulary of the statements *)

Section Statements.
Context {Node Compiler : Type} `{!Typed Node}.

Abbreviation Res := (Result Node).
Abbreviation Hooks := (gmap string (list (Handler Node Compiler))).
Abbreviation Self := (Comments Node Compiler).

(** The pairs of type name and handler that one call of [before] or
    [after] registers, in the order in which it pushes them. *)
Definition registrations (target : HookTarget Node Compiler)
    (fn : Handler Node Compiler) : list (string * Handler Node Compiler) :=
  match target with
  | OneType type => [(type, fn)]
  | ManyTypes types => (fun type => (type, fn)) <$> types
  | HandlerTable table => table
  end.

(** What a table holds for a type once some pairs were pushed. *)
Definition pushed (table : Hooks) (entries : list (string * Handler Node Compiler))
  : Hooks :=
  foldl (fun table entry => push_handler table entry.1 entry.2) table entries.

(** [before] or [after], by the phase it registers for. *)
Definition register (phase : Phase) (this : Self)
    (call : HookTarget Node Compiler * Handler Node Compiler) : Self :=
  match phase with
  | Before => before this call.1 call.2
  | After => after this call.1 call.2
  end.

(** The handlers that a sequence of calls registers for one type, in
    registration order. *)
Definition registered_for (type : string)
    (calls : list (HookTarget Node Compiler * Handler Node Compiler))
  : list (Handler Node Compiler) :=
  snd <$> filter (fun entry => entry.1 = type)
                 (calls ≫= fun call => registrations call.1 call.2).

(** The specification's chain: each step receives the node that the step
    before it produced, and a failure ends the chain. *)
Definition in_order (steps : list (Node → Res Node)) (node : Node) : Res Node :=
  foldl (fun acc step => rbind acc step) (Ok node) steps.

(** The instance with other options. *)
Definition with_options (this : Self) (opts : Options Node Compiler) : Self :=
  mkComments opts (ast this) (tokens this) (plugins_middleware this)
    (plugins_before this) (plugins_after this) (emitted this).

(** The middleware in force for a call: [parsers] in the methods. *)
Definition parsers_of (this : Self) (options : Options Node Compiler)
  : Parsers Node Compiler :=
  assign_parsers (plugins_middleware this)
                 (o_parse (assign_options (this_options this) options)).

(** The flags in force for a call: the data of [opts] in the methods. *)
Definition flags_of (this : Self) (options : Options Node Compiler) : Flags :=
  o_flags (assign_options (this_options this) options).

(** The ['comment'] event that carries [comment]. *)
Definition event (comment : Comment Tag) : string * Comment Tag :=
  ("comment", comment).

(** The instance with other hook tables. *)
Definition with_hooks (this : Self) (before after : Hooks) : Self :=
  mkComments (this_options this) (ast this) (tokens this)
    (plugins_middleware this) before after (emitted this).

(** [this.tokens.push(tok)], as a function called with [this] sees it. *)
Definition push_view (tok : Token) (v : View Node Compiler) : View Node Compiler :=
  mkView (view_options v) (view_tokens v ++ [tok]) (view_before v) (view_after v).

(** A function called with [this] is blind to what [R] lets vary when it
    returns the same on views that [R] relates. *)
Definition blind {A} (R : relation (View Node Compiler))
    (f : View Node Compiler → A) : Prop :=
  ∀ v v', R v v' → f v = f v'.

Definition slot_blind {A} (R : relation (View Node Compiler))
    (slot : Slot (View Node Compiler → A)) : Prop :=
  match slot with Fn f => blind R f | _ => True end.

Definition parsers_blind (R : relation (View Node Compiler))
    (p : Parsers Node Compiler) : Prop :=
  slot_blind R (p_comment p) ∧ slot_blind R (p_parseTags p)
  ∧ slot_blind R (p_tag p) ∧ slot_blind R (p_inlineTag p)
  ∧ slot_blind R (p_type p) ∧ slot_blind R (p_paramType p).

Definition options_blind (R : relation (View Node Compiler))
    (o : Options Node Compiler) : Prop :=
  from_option (parsers_blind R) True (o_parse o)
  ∧ slot_blind R (o_extract o) ∧ slot_blind R (o_preprocess o).

(** Every function that a call can reach with [this] bound to the
    instance is blind: the middleware, the overrides of the options of
    the instance and of the call, and the formatter. *)
Definition pipeline_blind (R : relation (View Node Compiler))
    (lib : Lib Node Compiler) (this : Self) (options : Options Node Compiler)
  : Prop :=
  parsers_blind R (plugins_middleware this)
  ∧ options_blind R (this_options this)
  ∧ options_blind R options
  ∧ blind R (lib_format lib).

(** Views with the same options and hook tables: the registered pipeline
    state, whatever tokens were accumulated. *)
Definition same_registrations : relation (View Node Compiler) :=
  fun v v' =>
    view_options v = view_options v' ∧ view_before v = view_before v'
    ∧ view_after v = view_after v'.

(** Views with the same options and tokens, whatever hooks are
    registered. *)
Definition same_but_hooks : relation (View Node Compiler) :=
  fun v v' =>
    view_options v = view_options v' ∧ view_tokens v = view_tokens v'.

(** Two instances with the options [o] and the middleware [mw] whose
    views [R] relates. *)
Definition agree (R : relation (View Node Compiler))
    (o : Options Node Compiler) (mw : Parsers Node Compiler) (a b : Self)
  : Prop :=
  this_options a = o ∧ this_options b = o
  ∧ plugins_middleware a = mw ∧ plugins_middleware b = mw
  ∧ R (view_of a) (view_of b).

Definition outcome_agree {A} (R : relation (View Node Compiler))
    (o : Options Node Compiler) (mw : Parsers Node Compiler)
    (x y : Outcome Node Compiler A) : Prop :=
  match x, y with
  | Done r a, Done r' b => r = r' ∧ agree R o mw a b
  | OutOfFuel, OutOfFuel => True
  | _, _ => False
  end.

(** Two computations that end alike from instances that agree. *)
Definition related {A} (R : relation (View Node Compiler))
    (o : Options Node Compiler) (mw : Parsers Node Compiler)
    (m m' : M Node Compiler A) : Prop :=
  ∀ a b, agree R o mw a b → outcome_agree R o mw (m a) (m' b).

(** A computation that ends with an instance that [P] relates to the one
    it started from. *)
Definition preserves {A} (P : relation Self) (m : M Node Compiler A) : Prop :=
  ∀ this r this', m this = Done r this' → P this this'.

(** The registered pipeline of [b] is that of [a]: options, middleware
    and hook tables. *)
Definition same_pipeline : relation Self :=
  fun a b =>
    this_options b = this_options a
    ∧ plugins_middleware b = plugins_middleware a
    ∧ plugins_before b = plugins_before a
    ∧ plugins_after b = plugins_after a.

(** The tokens and the events of [b] extend those of [a]. *)
Definition only_appended : relation Self :=
  fun a b => tokens a `prefix_of` tokens b ∧ emitted a `prefix_of` emitted b.

(** [this.tokens] is what it was. *)
Definition same_tokens : relation Self := fun a b => tokens b = tokens a.

(** [this.ast] is what it was. *)
Definition same_ast : relation Self := fun a b => ast b = ast a.

(** The loop of [extract] goes on with a block: [isValid] returned
    something other than [false]. *)
Definition passes_isValid (lib : Lib Node Compiler) (this : Self)
    (options : Options Node Compiler) (block : Block) : bool :=
  match isValid lib this block options with
  | Ok valid => negb (is_false valid)
  | Throw _ => false
  end.

(** The instance with another [parse] object in its options. *)
Definition with_parse (this : Self) (parse : option (Parsers Node Compiler))
  : Self :=
  with_options this
    (mkOptions (o_flags (this_options this)) parse
               (o_extract (this_options this))
               (o_preprocess (this_options this))
               (o_isValid (this_options this))).

(** A computation that ends within its fuel. *)
Definition finishes {A} (m : M Node Compiler A) : Prop :=
  ∀ this, m this ≠ OutOfFuel.

(** A computation that leaves the instance as it found it. *)
Definition calm {A} (m : M Node Compiler A) : Prop :=
  ∀ this r this', m this = Done r this' → this' = this.

(** A computation that emits no event. *)
Definition quiet {A} (m : M Node Compiler A) : Prop :=
  ∀ this r this', m this = Done r this' → emitted this' = emitted this.

(** A computation that emits one event for each comment it adds to
    [res], and for nothing else. *)
Definition emits_each (res : list (Comment Tag))
    (m : M Node Compiler (list (Comment Tag))) : Prop :=
  ∀ this all this',
    m this = Done (Ok all) this' →
    ∃ new, all = res ++ new ∧ emitted this' = emitted this ++ (event <$> new).

End Statements.

(** ** The dispatcher: [before], [after] and [run] *)

Section Dispatcher.
Context {Node Compiler : Type} `{!Typed Node}.

Abbreviation Res := (Result Node).
Abbreviation Hooks := (gmap string (list (Handler Node Compiler))).
Abbreviation Self := (Comments Node Compiler).

Lemma rbind_assoc {A B C} (r : Res A) (k : A → Res B) (h : B → Res C) :
  rbind (rbind r k) h = rbind r (fun a => rbind (k a) h).
Proof. by destruct r. Qed.

Lemma run_loop_app type (compiler : Compiler) fns1 fns2 (node : Node) :
  run_loop type compiler (fns1 ++ fns2) node
  = rbind (run_loop type compiler fns1 node) (run_loop type compiler fns2).
Proof.
  revert node. induction fns1 as [|fn fns1 IH]; intros node; simpl; [done|].
  destruct (call_plugin type compiler fn node) as [node'|e]; simpl; [apply IH|done].
Qed.

Lemma in_order_throw (steps : list (Node → Res Node)) e :
  foldl (fun acc step => rbind acc step) (Throw e) steps = Throw e.
Proof. induction steps as [|step steps IH]; simpl; [done|apply IH]. Qed.

Lemma run_loop_in_order type (compiler : Compiler) fns (node : Node) :
  run_loop type compiler fns node
  = in_order (call_plugin type compiler <$> fns) node.
Proof.
  unfold in_order. revert node.
  induction fns as [|fn fns IH]; intros node; simpl; [done|].
  destruct (call_plugin type compiler fn node) as [node'|e]; simpl.
  - apply IH.
  - by rewrite in_order_throw.
Qed.

Lemma pushed_lookup (table : Hooks) entries type :
  default [] (pushed table entries !! type)
  = default [] (table !! type)
    ++ (snd <$> filter (fun entry => entry.1 = type) entries).
Proof.
  revert table. induction entries as [|[key fn] entries IH]; intros table; simpl.
  { by rewrite app_nil_r. }
  rewrite IH. unfold push_handler; simpl.
  destruct (decide (key = type)) as [->|Hne].
  - rewrite lookup_insert_eq. simpl.
    rewrite filter_cons_True by done. simpl. by rewrite <- app_assoc.
  - rewrite lookup_insert_ne by done.
    by rewrite filter_cons_False by (simpl; congruence).
Qed.

Lemma before_pushed (this : Self) target fn :
  before this target fn
  = set_before this (pushed (plugins_before this) (registrations target fn)).
Proof.
  destruct target as [type|types|table]; simpl; [done| |].
  - revert this. induction types as [|key types IH]; intros this; simpl.
    + by destruct this.
    + rewrite IH. by destruct this.
  - revert this. induction table as [|[key h] table IH]; intros this; simpl.
    + by destruct this.
    + rewrite IH. by destruct this.
Qed.

Lemma after_pushed (this : Self) target fn :
  after this target fn
  = set_after this (pushed (plugins_after this) (registrations target fn)).
Proof.
  destruct target as [type|types|table]; simpl; [done| |].
  - revert this. induction types as [|key types IH]; intros this; simpl.
    + by destruct this.
    + rewrite IH. by destruct this.
  - revert this. induction table as [|[key h] table IH]; intros this; simpl.
    + by destruct this.
    + rewrite IH. by destruct this.
Qed.

Lemma pushed_app (table : Hooks) entries1 entries2 :
  pushed table (entries1 ++ entries2) = pushed (pushed table entries1) entries2.
Proof. unfold pushed. by rewrite foldl_app. Qed.

Lemma register_all_plugins phase (this : Self) calls :
  plugins (foldl (register phase) this calls) phase
  = pushed (plugins this phase)
           (calls ≫= fun call => registrations call.1 call.2).
Proof.
  revert this. induction calls as [|[target fn] calls IH]; intros this; simpl.
  { done. }
  rewrite IH, pushed_app. f_equal.
  destruct phase; simpl; [by rewrite before_pushed|by rewrite after_pushed].
Qed.



End Dispatcher.

Import Sample.



(** ** Tags: [parseTag], [parseTags] and the string guards *)

Section Tags.
Context {Node Compiler : Type} `{!Typed Node}.
Context (lib : Lib Node Compiler).

Abbreviation Res := (Result Node).
Abbreviation Self := (Comments Node Compiler).

Lemma not_function_inv {F} (slot : Slot F) :
  is_function slot = false → slot = Unset ∨ slot = NotFn.
Proof. destruct slot; naive_solver. Qed.

(** Without a [tag] middleware, [parseTag] starts with [lib.parse.tag]. *)
Lemma parseTag_default (this : Self) line options :
  is_function (p_tag (parsers_of this options)) = false →
  parseTag lib this line options
  = match lib_parse_tag lib (as_tok line) with
    | Throw err =>
        if truthy (prop (strict (flags_of this options)))
        then Throw err else Ok None
    | Ok None => Ok None
    | Ok (Some tag) =>
      if present (t_rawType tag) && negb (lib_allows_type lib (as_tok line))
      then Ok None
      else
        let! tag :=
          (if present (t_rawType tag)
           then
             let! type :=
               parseType lib this (VStr (slice_1_m1 (default "" (t_rawType tag))))
                         (Some tag) options in
             Ok (set_type tag type)
           else Ok tag) in
        if lib_expects_type lib tag && negb (has_type (t_type tag))
        then
          if is_true (prop (strict (flags_of this options)))
          then Ok None
          else parseTag_finish lib this
                 (assign_options (this_options this) options) (set_type tag TyNull)
        else parseTag_finish lib this
               (assign_options (this_options this) options) tag
    end.
Proof.
  intros Hfn. unfold parseTag, parsers_of, flags_of in *.
  by destruct (not_function_inv _ Hfn) as [-> | ->].
Qed.

(** A failure of [lib.parse.tag] is swallowed unless [strict] is truthy. *)
Lemma parseTag_swallows_tag_error (this : Self) line options e :
  is_function (p_tag (parsers_of this options)) = false →
  lib_parse_tag lib (as_tok line) = Throw e →
  parseTag lib this line options
  = if truthy (prop (strict (flags_of this options))) then Throw e else Ok None.
Proof. intros Hfn He. by rewrite parseTag_default, He. Qed.



(** C6: a tag that expects a type and whose line has no type literal is,
    when [strict] is [true], rejected with [null] and no exception; and
    otherwise goes on to normalization with its type set to [null], so
    that [parseTag] returns it when normalization and validation keep
    it. *)
Theorem parseTag_missing_type (this : Self) line options tag :
  is_function (p_tag (parsers_of this options)) = false →
  lib_parse_tag lib (as_tok line) = Ok (Some tag) →
  present (t_rawType tag) = false →
  has_type (t_type tag) = false →
  lib_expects_type lib tag = true →
  let opts := assign_options (this_options this) options in
  (is_true (prop (strict (o_flags opts))) = true →
     parseTag lib this line options = Ok None)
  ∧ (is_true (prop (strict (o_flags opts))) = false →
     parseTag lib this line options
     = parseTag_finish lib this opts (set_type tag TyNull)
     ∧ ∀ normal valid,
         lib_normalize_tag lib (set_type tag TyNull) (o_flags opts)
         = Ok (Some normal) →
         lib_validate_tag lib normal (o_flags opts) = Ok (Some valid) →
         (nonempty (t_description valid) = true →
            ∃ inline,
              parseInlineTags lib this (VStr (t_description valid)) opts
              = Ok inline) →
         ∃ final,
           parseTag lib this line options = Ok (Some final)
           ∧ t_title final = t_title valid
           ∧ t_type final = t_type valid).
Proof.
  intros Hfn Htag Hraw Htype Hexpects opts.
  rewrite parseTag_default, Htag, Hraw by done. cbn [andb rbind].
  rewrite Hexpects, Htype. cbn [andb negb]. unfold flags_of. fold opts.
  split; [by intros -> |].
  intros ->. split; [done|].
  intros normal valid Hnormal Hvalid Hinline.
  unfold parseTag_finish. rewrite Hnormal. cbn [rbind].
  rewrite Hvalid. cbn [rbind].
  destruct (nonempty (t_description valid)) eqn:Hdesc.
  - destruct Hinline as [inline Hinline]; [done|]. rewrite Hinline.
    cbn [rbind]. by eexists.
  - by eexists.
Qed.

(** The tag that one line contributes to the list, if any. *)
Lemma parseTags_loop_spec (this : Self) opts lines tags :
  match parseTags_loop lib this opts lines tags with
  | Ok result =>
      Forall (fun raw => ∃ r, parseTag lib this raw opts = Ok r) lines
      ∧ result
        = tags ++ omap (fun raw =>
                          match parseTag lib this raw opts with
                          | Ok (Some tag) => Some (define_raw tag raw)
                          | _ => None
                          end) lines
  | Throw e =>
      Exists (fun raw => parseTag lib this raw opts = Throw e) lines
  end.
Proof.
  revert tags. induction lines as [|raw lines IH]; intros tags; simpl.
  { split; [done|by rewrite app_nil_r]. }
  destruct (parseTag lib this raw opts) as [[tag|]|e] eqn:Htag; simpl.
  - specialize (IH (tags ++ [define_raw tag raw])).
    destruct (parseTags_loop _ _ _ _ _) as [result|e].
    + destruct IH as [Hall ->]. split; [constructor; eauto|].
      by rewrite <- app_assoc.
    + by apply Exists_cons_tl.
  - specialize (IH tags).
    destruct (parseTags_loop _ _ _ _ _) as [result|e].
    + destruct IH as [Hall ->]. split; [constructor; eauto|done].
    + by apply Exists_cons_tl.
  - by apply Exists_cons_hd.
Qed.

(** C7: the list that [parseTags] builds holds exactly the tags of the
    lines on which [parseTag] returned a tag, in the order of the lines,
    each with its line as [raw]; it is returned whenever no line makes
    [parseTag] throw, and it is empty for a comment without tag lines. *)
Theorem parseTags_successful_in_order (this : Self) comment options :
  is_function (p_parseTags (parsers_of this options)) = false →
  let opts := assign_options (this_options this) options in
  let kept :=
    omap (fun raw =>
            match parseTag lib this raw opts with
            | Ok (Some tag) => Some (define_raw tag raw)
            | _ => None
            end) (c_tags comment) in
  (Forall (fun raw => ∃ r, parseTag lib this raw opts = Ok r) (c_tags comment) →
     parseTags lib this comment options = Ok kept)
  ∧ (∀ tags, parseTags lib this comment options = Ok tags → tags = kept)
  ∧ (c_tags comment = [] → parseTags lib this comment options = Ok []).
Proof.
  intros Hfn opts kept.
  assert (Hloop : parseTags lib this comment options
                  = parseTags_loop lib this opts (c_tags comment) []).
  { unfold parseTags, parsers_of in *.
    by destruct (not_function_inv _ Hfn) as [-> | ->]. }
  rewrite Hloop.
  pose proof (parseTags_loop_spec this opts (c_tags comment) []) as Hspec.
  split_and!.
  - intros Hall.
    destruct (parseTags_loop _ _ _ _ _) as [result|e].
    + by destruct Hspec as [_ ->].
    + apply Exists_exists in Hspec as (raw & Hin & Hthrow).
      rewrite Forall_forall in Hall.
      destruct (Hall raw Hin) as [r Hr]. congruence.
  - intros tags Htags. rewrite Htags in Hspec. by destruct Hspec as [_ ->].
  - intros Hnil. by rewrite Hnil.
Qed.

(** C10: on an argument that is not a string, [parseType],
    [parseInlineTags] and [parseParamType] throw the [TypeError] of their
    first statement, for every instance and every options object: no
    option and no middleware is read before. *)
Theorem non_string_rejected (this : Self) (str : Val) tag options :
  is_string str = false →
  parseType lib this str tag options = Throw (TypeError "expected a string")
  ∧ parseInlineTags lib this str options = Throw (TypeError "expected a string")
  ∧ parseParamType this str options = Throw (TypeError "expected a string").
Proof. by destruct str. Qed.

End Tags.




(** The same line inside a comment: the exception leaves [parseComment]
    too, after the token was pushed and before any event. *)
Example parseComment_type_error_example :
  ∃ this',
    parseComment sample_lib sample_ext 1
      (InBlock (mkBlock "BlockComment" "@param {function(...a} x"
                        "/** @param {function(...a} x */" no_code))
      no_options fresh
    = Done (Throw (Raised "TypeSyntaxError" "unbalanced brackets")) this'
    ∧ length (tokens this') = 1 ∧ emitted this' = [].
Proof. eexists. split_and!; vm_compute; reflexivity. Qed.

Lemma parseTag_missing_type_witness :
  parseTag sample_lib fresh (LineString "@returns the sum") strict_options
  = Ok None
  ∧ ∃ final,
      parseTag sample_lib fresh (LineString "@returns the sum") no_options
      = Ok (Some final)
      ∧ t_title final = "returns" ∧ t_type final = TyNull.
Proof.
  split.
  - apply (parseTag_missing_type sample_lib fresh (LineString "@returns the sum")
             strict_options
             (mkTag "returns" "" "the sum" None TyUndefined None None));
      reflexivity.
  - destruct (parseTag_missing_type sample_lib fresh
                (LineString "@returns the sum") no_options
                (mkTag "returns" "" "the sum" None TyUndefined None None))
      as [_ Hloose]; try reflexivity.
    destruct (Hloose eq_refl) as [_ Hkept].
    apply (Hkept (mkTag "returns" "" "the sum" None TyNull None None)
                 (mkTag "returns" "" "the sum" None TyNull None None));
      try reflexivity.
    intros _. eexists. reflexivity.
Defined.

Lemma parseTags_successful_in_order_witness :
  parseTags sample_lib fresh
    (mkComment "BlockComment" "" "" no_code "" "" []
       [LineString "@param {String} name The name to use for foo";
        LineString "@private {string}";
        LineString "@param {String name";
        LineString "@returns {Number}"] None)
    no_options
  = Ok [define_raw param_tag
          (LineString "@param {String} name The name to use for foo");
        mkTag "returns" "" "" (Some "{Number}") (TyAst (NameType "Number"))
              None (Some (LineString "@returns {Number}"))].
Proof.
  destruct (parseTags_successful_in_order sample_lib fresh
              (mkComment "BlockComment" "" "" no_code "" "" []
                 [LineString "@param {String} name The name to use for foo";
                  LineString "@private {string}";
                  LineString "@param {String name";
                  LineString "@returns {Number}"] None)
              no_options eq_refl) as [Hall _].
  etrans; [apply Hall|reflexivity].
  repeat constructor; eexists; reflexivity.
Defined.

Lemma non_string_rejected_witness :
  parseType sample_lib fresh (VNum 42) None strict_options
  = Throw (TypeError "expected a string")
  ∧ parseInlineTags sample_lib fresh (VNum 42) strict_options
    = Throw (TypeError "expected a string")
  ∧ parseParamType fresh (VNum 42) strict_options
    = Throw (TypeError "expected a string").
Proof. apply (non_string_rejected sample_lib fresh (VNum 42) None strict_options). reflexivity. Defined.

(** ** The orchestrator: [parseComment] *)

Section Orchestrator.
Context {Node Compiler : Type} `{!Typed Node}.
Context (lib : Lib Node Compiler) (ext : Ext Node).

Abbreviation Res := (Result Node).
Abbreviation Self := (Comments Node Compiler).

(** *** The events of a call *)

Lemma mbind_ok {A B} (m : M Node Compiler A) (k : A → M Node Compiler B)
    (this this' : Self) y :
  mbind m k this = Done (Ok y) this' →
  ∃ x mid, m this = Done (Ok x) mid ∧ k x mid = Done (Ok y) this'.
Proof.
  unfold mbind. destruct (m this) as [[x|e] mid|]; [eauto|done|done].
Qed.

Lemma quiet_bind {A B} (m : M Node Compiler A) (k : A → M Node Compiler B) :
  quiet m → (∀ x, quiet (k x)) → quiet (mbind m k).
Proof.
  intros Hm Hk this r this'. unfold mbind.
  destruct (m this) as [[x|e] mid|] eqn:Hrun; [|naive_solver..].
  intros Hrest. rewrite <- (Hm _ _ _ Hrun). by eapply Hk.
Qed.

Lemma quiet_reading {A} (f : Self → Res A) : quiet (reading f).
Proof. intros this r this'. unfold reading. naive_solver. Qed.

Lemma quiet_ret {A} (x : A) : quiet (Node:=Node) (Compiler:=Compiler) (ret x).
Proof. intros this r this'. unfold ret. naive_solver. Qed.

Lemma quiet_throw {A} e : quiet (Node:=Node) (Compiler:=Compiler) (A:=A) (throw e).
Proof. intros this r this'. unfold throw. naive_solver. Qed.

Lemma quiet_push_token tok : quiet (Node:=Node) (Compiler:=Compiler) (push_token tok).
Proof. intros this r this'. unfold push_token. naive_solver. Qed.

Lemma quiet_set_ast comments :
  quiet (Node:=Node) (Compiler:=Compiler) (set_ast comments).
Proof. intros this r this'. unfold set_ast. naive_solver. Qed.

Ltac quiet :=
  repeat first
    [ apply quiet_reading | apply quiet_ret | apply quiet_throw
    | apply quiet_push_token | apply quiet_set_ast
    | apply quiet_bind; [|intros ?] | progress cbv zeta | case_match ].

Lemma calm_bind {A B} (m : M Node Compiler A) (k : A → M Node Compiler B) :
  calm m → (∀ x, calm (k x)) → calm (mbind m k).
Proof.
  intros Hm Hk this r this'. unfold mbind.
  destruct (m this) as [[x|e] mid|] eqn:Hrun; [|naive_solver..].
  intros Hrest. rewrite <- (Hm _ _ _ Hrun). by eapply Hk.
Qed.

Lemma calm_reading {A} (f : Self → Res A) : calm (reading f).
Proof. intros this r this'. unfold reading. naive_solver. Qed.

Lemma calm_ret {A} (x : A) : calm (Node:=Node) (Compiler:=Compiler) (ret x).
Proof. intros this r this'. unfold ret. naive_solver. Qed.

Lemma calm_throw {A} e : calm (Node:=Node) (Compiler:=Compiler) (A:=A) (throw e).
Proof. intros this r this'. unfold throw. naive_solver. Qed.

Ltac calm :=
  repeat first
    [ apply calm_reading | apply calm_ret | apply calm_throw
    | apply calm_bind; [|intros ?] | progress cbv zeta | case_match ].

Ltac use_calm H :=
  cbv beta in H;
  match type of H with
  | ?m _ = Done _ _ =>
      let Q := fresh "Q" in assert (Q : calm m) by calm; apply Q in H
  end.

Ltac use_quiet H :=
  cbv beta in H;
  match type of H with
  | ?m _ = Done _ _ =>
      let Q := fresh "Q" in assert (Q : quiet m) by quiet; apply Q in H
  end.

Lemma reading_ok {A} (f : Self → Res A) (this this' : Self) r :
  reading f this = Done r this' → this' = this ∧ f this = r.
Proof. unfold reading. naive_solver. Qed.

(** The end of a call: one event with the comment it returns, after
    what the first stage of the call did. *)
Lemma parseComment_emits_last fuel input options (this this' : Self) c :
  parseComment lib ext (S fuel) input options this = Done (Ok c) this' →
  let opts := assign_options (this_options this) options in
  ∃ first mid,
    match p_comment (parsers_of this options), input with
    | Fn parser, _ =>
        reading (fun this => parser (view_of this) input (o_flags opts))
    | _, InString str =>
        do! comments := parse_with lib ext (parseComment lib ext fuel) str options in
        ret (head comments)
    | _, InBlock block =>
        do! tok := reading (fun this => tokenize ext this (b_value block) opts) in
        do! _ := push_token tok in
        let comment := assign_token block tok in
        do! comment :=
          reading (fun _ => lib_normalize_examples lib comment (o_flags opts)) in
        do! tags := reading (fun this => parseTags lib this comment options) in
        ret (Some (set_tags comment tags))
    end this = Done (Ok first) mid
    ∧ emit "comment" c mid = Done (Ok ()) this'.
Proof.
  intros Hrun opts. cbn [parseComment] in Hrun.
  apply mbind_ok in Hrun as (first & mid & Hfirst & Hrun).
  exists first, mid. split; [exact Hfirst|].
  apply mbind_ok in Hrun as (second & mid2 & Hsecond & Hrun).
  apply mbind_ok in Hrun as (third & mid3 & Hthird & Hrun).
  apply mbind_ok in Hrun as ([] & mid4 & Hemit & Hrun).
  unfold ret in Hrun. simplify_eq.
  use_calm Hsecond. use_calm Hthird. by subst.
Qed.

(** A call on a comment object, or one that a [comment] middleware
    answers, emits its one event. *)
Lemma parseComment_direct_emits fuel input options (this this' : Self) c :
  (is_function (p_comment (parsers_of this options)) = true
   ∨ ∃ block, input = InBlock block) →
  parseComment lib ext fuel input options this = Done (Ok c) this' →
  emitted this' = emitted this ++ [event c].
Proof.
  intros Hdirect Hrun. destruct fuel as [|fuel]; [done|].
  apply parseComment_emits_last in Hrun as (first & mid & Hfirst & Hemit).
  unfold emit in Hemit. simplify_eq/=. f_equal.
  destruct (p_comment _) as [| |parser] eqn:Hparser;
    destruct input as [str|block]; simpl in Hdirect;
    try (destruct Hdirect as [?|[? ?]]; discriminate);
    by use_quiet Hfirst.
Qed.

Lemma extract_loop_emits (fn : Block → M Node Compiler (Comment Tag)) options
    blocks res :
  (∀ block this c this',
     fn block this = Done (Ok c) this' →
     emitted this' = emitted this ++ [event c]) →
  emits_each res (extract_loop lib fn options blocks res).
Proof.
  intros Hfn. revert res.
  induction blocks as [|block blocks IH]; intros res this all this' Hrun.
  { cbn [extract_loop] in Hrun. unfold ret in Hrun. simplify_eq.
    exists []. simpl. by rewrite !app_nil_r. }
  cbn [extract_loop] in Hrun.
  apply mbind_ok in Hrun as (valid & mid & Hvalid & Hrun).
  apply reading_ok in Hvalid as [-> _].
  destruct (is_false valid); [by apply IH|].
  apply mbind_ok in Hrun as (comment & mid & Hpre & Hrun).
  apply reading_ok in Hpre as [-> _].
  apply mbind_ok in Hrun as (parsed & mid & Hparsed & Hrun).
  apply Hfn in Hparsed. apply IH in Hrun as (new & -> & ->).
  exists (parsed :: new). rewrite Hparsed, <- !app_assoc. done.
Qed.

Lemma parse_with_emits fuel str options (this this' : Self) comments :
  parse_with lib ext (parseComment lib ext fuel) str options this
  = Done (Ok comments) this' →
  ast this' = Some comments
  ∧ emitted this' = emitted this ++ (event <$> comments).
Proof.
  intros Hrun. unfold parse_with in Hrun.
  apply mbind_ok in Hrun as (all & mid & Hextract & Hrun).
  apply mbind_ok in Hrun as ([] & mid2 & Hast & Hrun).
  unfold ret in Hrun. unfold set_ast in Hast. simplify_eq/=.
  split; [done|].
  unfold extract in Hextract.
  apply mbind_ok in Hextract as (blocks & mid0 & Hblocks & Hloop).
  assert (mid0 = this) as ->.
  { destruct (o_extract _); by apply reading_ok in Hblocks as [-> _]. }
  apply extract_loop_emits in Hloop as (new & -> & ->); [done|].
  intros block this0 c this1. apply parseComment_direct_emits. eauto.
Qed.


(** *** What a call depends on *)

Lemma blind_mono {A} (R R' : relation (View Node Compiler))
    (f : View Node Compiler → A) :
  (∀ v v', R' v v' → R v v') → blind R f → blind R' f.
Proof. unfold blind. eauto. Qed.

Lemma slot_blind_mono {A} (R R' : relation (View Node Compiler))
    (slot : Slot (View Node Compiler → A)) :
  (∀ v v', R' v v' → R v v') → slot_blind R slot → slot_blind R' slot.
Proof. destruct slot; simpl; eauto using blind_mono. Qed.

Lemma parsers_blind_mono (R R' : relation (View Node Compiler)) p :
  (∀ v v', R' v v' → R v v') → parsers_blind R p → parsers_blind R' p.
Proof.
  intros ? (?&?&?&?&?&?). unfold parsers_blind.
  split_and!; eauto using slot_blind_mono.
Qed.

Lemma options_blind_mono (R R' : relation (View Node Compiler)) opts :
  (∀ v v', R' v v' → R v v') → options_blind R opts → options_blind R' opts.
Proof.
  unfold options_blind. intros ? (Hparse & ? & ?).
  split_and!; eauto using slot_blind_mono.
  destruct (o_parse opts); simpl in *; eauto using parsers_blind_mono.
Qed.

Lemma slot_blind_assign {A} (R : relation (View Node Compiler))
    (earlier later : Slot (View Node Compiler → A)) :
  slot_blind R earlier → slot_blind R later →
  slot_blind R (assign_slot earlier later).
Proof. by destruct later. Qed.

Ltac by_relation a b Hab :=
  match goal with
  | |- outcome_agree ?R ?o ?mw (?m a) (?m' b) =>
      let Hrel := fresh "Hrel" in
      cut (related R o mw m m'); [intros Hrel; exact (Hrel a b Hab)|]
  end.

Section NonInterference.
Context (R : relation (View Node Compiler)).
Context (R_push : ∀ tok v v', R v v' → R (push_view tok v) (push_view tok v')).
Context (o : Options Node Compiler) (mw : Parsers Node Compiler).
Context (Ho : options_blind R o) (Hmw : parsers_blind R mw).
Context (Hformat : blind R (lib_format lib)).

Lemma merged_options_blind options :
  options_blind R options → options_blind R (assign_options o options).
Proof using Ho.
  destruct Ho as (Hp & He & Hpre). intros (Hp' & He' & Hpre').
  split_and!; simpl; eauto using slot_blind_assign.
  by destruct (o_parse options).
Qed.

Lemma merged_parsers_blind options :
  options_blind R options →
  parsers_blind R (assign_parsers mw (o_parse (assign_options o options))).
Proof using Ho Hmw.
  intros Hopts. destruct (merged_options_blind _ Hopts) as (Hp & _ & _).
  destruct (o_parse (assign_options o options)) as [later|]; simpl in *; [|done].
  destruct Hmw as (?&?&?&?&?&?), Hp as (?&?&?&?&?&?).
  split_and!; simpl; eauto using slot_blind_assign.
Qed.

Lemma tokenize_agree a b input options :
  agree R o mw a b → tokenize ext a input options = tokenize ext b input options.
Proof. intros (Ha & Hb & _). unfold tokenize. by rewrite Ha, Hb. Qed.

Lemma parseInlineTags_agree a b str options :
  agree R o mw a b → options_blind R options →
  parseInlineTags lib a str options = parseInlineTags lib b str options.
Proof using Ho Hmw.
  intros (Ha & Hb & Hma & Hmb & HR) Hopts.
  destruct str; try done. unfold parseInlineTags. rewrite Ha, Hb, Hma, Hmb.
  destruct (merged_parsers_blind _ Hopts) as (_&_&_&Hslot&_&_).
  destruct (p_inlineTag _) as [| |f]; try done.
  by rewrite (Hslot _ _ HR).
Qed.

Lemma parseType_agree a b str tag options :
  agree R o mw a b → options_blind R options →
  parseType lib a str tag options = parseType lib b str tag options.
Proof using Ho Hmw.
  intros (Ha & Hb & Hma & Hmb & HR) Hopts.
  destruct str; try done. unfold parseType. rewrite Ha, Hb, Hma, Hmb.
  destruct (merged_parsers_blind _ Hopts) as (_&_&_&_&Hslot&_).
  destruct (p_type _) as [| |f]; try done.
  by rewrite (Hslot _ _ HR).
Qed.

Lemma parseTag_finish_agree a b opts tag :
  agree R o mw a b → options_blind R opts →
  parseTag_finish lib a opts tag = parseTag_finish lib b opts tag.
Proof using Ho Hmw.
  intros Hab Hopts. unfold parseTag_finish.
  destruct (lib_normalize_tag _ _ _) as [[normal|]|]; cbn [rbind]; try done.
  destruct (lib_validate_tag _ _ _) as [[valid|]|]; cbn [rbind]; try done.
  destruct (nonempty _); [|done].
  by rewrite (parseInlineTags_agree a b _ _ Hab Hopts).
Qed.

Lemma parseTag_agree a b line options :
  agree R o mw a b → options_blind R options →
  parseTag lib a line options = parseTag lib b line options.
Proof using Ho Hmw.
  intros Hab Hopts. pose proof Hab as (Ha & Hb & Hma & Hmb & HR).
  unfold parseTag. rewrite Ha, Hb, Hma, Hmb. cbv zeta.
  destruct (merged_parsers_blind _ Hopts) as (_&_&Hslot&_&_&_).
  pose proof (fun tag => parseTag_finish_agree a b _ tag Hab
                           (merged_options_blind _ Hopts)) as Hfinish.
  destruct (p_tag _) as [| |f]; [| |by rewrite (Hslot _ _ HR)].
  all: destruct (lib_parse_tag lib _) as [[tag|]|e]; try done.
  all: destruct (_ && _); try done.
  all: destruct (present _); cbn [rbind];
    [rewrite (parseType_agree a b _ _ _ Hab Hopts);
     destruct (parseType lib b _ _ _); cbn [rbind]; try done|].
  all: repeat (case_match; try done); apply Hfinish.
Qed.

Lemma parseTags_loop_agree a b opts lines tags :
  agree R o mw a b → options_blind R opts →
  parseTags_loop lib a opts lines tags = parseTags_loop lib b opts lines tags.
Proof using Ho Hmw.
  intros Hab Hopts. revert tags.
  induction lines as [|raw lines IH]; intros tags; simpl; [done|].
  rewrite (parseTag_agree a b _ _ Hab Hopts).
  destruct (parseTag lib b raw opts) as [[tag|]|e]; simpl; by rewrite ?IH.
Qed.

Lemma parseTags_agree a b comment options :
  agree R o mw a b → options_blind R options →
  parseTags lib a comment options = parseTags lib b comment options.
Proof using Ho Hmw.
  intros Hab Hopts. pose proof Hab as (Ha & Hb & Hma & Hmb & HR).
  unfold parseTags. rewrite Ha, Hb, Hma, Hmb. cbv zeta.
  destruct (merged_parsers_blind _ Hopts) as (_&Hslot&_).
  pose proof (parseTags_loop_agree a b _ (c_tags comment) [] Hab
                (merged_options_blind _ Hopts)) as Hloop.
  destruct (p_parseTags _) as [| |f]; [done|done|].
  by rewrite (Hslot _ _ HR).
Qed.

Lemma isValid_agree a b block options :
  agree R o mw a b → isValid lib a block options = isValid lib b block options.
Proof. intros (Ha & Hb & _). unfold isValid. by rewrite Ha, Hb. Qed.

Lemma preprocess_agree a b block options :
  agree R o mw a b → options_blind R options →
  preprocess lib a block options = preprocess lib b block options.
Proof using Ho.
  intros (Ha & Hb & _ & _ & HR) Hopts.
  unfold preprocess. rewrite Ha, Hb. cbv zeta.
  destruct (merged_options_blind _ Hopts) as (_ & _ & Hslot).
  destruct (o_preprocess _) as [| |f]; [done|done|].
  by rewrite (Hslot _ _ HR).
Qed.

Lemma related_ret {A} (x : A) : related R o mw (ret x) (ret x).
Proof. intros a b Hab. by split. Qed.

Lemma related_throw {A} e : related (A:=A) R o mw (throw e) (throw e).
Proof. intros a b Hab. by split. Qed.

Lemma related_bind {A B} (m m' : M Node Compiler A)
    (k k' : A → M Node Compiler B) :
  related R o mw m m' → (∀ x, related R o mw (k x) (k' x)) →
  related R o mw (mbind m k) (mbind m' k').
Proof.
  intros Hm Hk a b Hab. specialize (Hm a b Hab). unfold mbind.
  destruct (m a) as [[x|e] a'|], (m' b) as [[x'|e'] b'|]; simpl in Hm;
    try done; destruct Hm as [? Hab']; simplify_eq; [by apply Hk|done].
Qed.

Lemma related_reading {A} (f f' : Self → Res A) :
  (∀ a b, agree R o mw a b → f a = f' b) →
  related R o mw (reading f) (reading f').
Proof. intros Hf a b Hab. split; [by apply Hf|done]. Qed.

Lemma related_push_token tok :
  related R o mw (push_token tok) (push_token tok).
Proof using R_push.
  intros a b (Ha & Hb & Hma & Hmb & HR). split; [done|].
  split_and!; try done. by apply (R_push tok) in HR.
Qed.

Lemma related_set_ast comments :
  related R o mw (set_ast comments) (set_ast comments).
Proof. intros a b (Ha & Hb & Hma & Hmb & HR). by split. Qed.

Lemma related_emit name comment :
  related R o mw (emit name comment) (emit name comment).
Proof. intros a b (Ha & Hb & Hma & Hmb & HR). by split. Qed.

Lemma extract_loop_related (fn : Block → M Node Compiler (Comment Tag))
    options blocks res :
  options_blind R options →
  (∀ block, related R o mw (fn block) (fn block)) →
  related R o mw (extract_loop lib fn options blocks res)
                 (extract_loop lib fn options blocks res).
Proof using Ho.
  intros Hopts Hfn. revert res.
  induction blocks as [|block blocks IH]; intros res; cbn [extract_loop].
  { apply related_ret. }
  apply related_bind.
  { apply related_reading. intros a b Hab. by apply isValid_agree. }
  intros valid. destruct (is_false valid); [apply IH|].
  apply related_bind.
  { apply related_reading. intros a b Hab. by apply preprocess_agree. }
  intros comment. apply related_bind; [apply Hfn|]. intros parsed. apply IH.
Qed.

Lemma extract_related (fn : Block → M Node Compiler (Comment Tag)) str options :
  options_blind R options →
  (∀ block, related R o mw (fn block) (fn block)) →
  related R o mw (extract lib ext str options fn) (extract lib ext str options fn).
Proof using Ho.
  intros Hopts Hfn a b Hab. pose proof Hab as (Ha & Hb & _).
  unfold extract. rewrite Ha, Hb. cbv zeta.
  destruct (merged_options_blind _ Hopts) as (_ & Hslot & _).
  by_relation a b Hab.
  apply related_bind; [|intros blocks; by apply extract_loop_related].
  destruct (o_extract _) as [| |f]; apply related_reading; try done.
  intros a' b' (_ & _ & _ & _ & HR). by rewrite (Hslot _ _ HR).
Qed.

Lemma parse_with_related
    (parseComment : Input → Options Node Compiler → M Node Compiler (Comment Tag))
    str options :
  options_blind R options →
  (∀ input, related R o mw (parseComment input options)
                           (parseComment input options)) →
  related R o mw (parse_with lib ext parseComment str options)
                 (parse_with lib ext parseComment str options).
Proof using Ho.
  intros Hopts Hrec. unfold parse_with.
  apply related_bind; [apply extract_related; eauto|].
  intros comments. apply related_bind; [apply related_set_ast|].
  intros _. apply related_ret.
Qed.

(** Calls from instances that agree end alike, and leave instances that
    agree. *)
Lemma parseComment_related fuel input options :
  options_blind R options →
  related R o mw (parseComment lib ext fuel input options)
                 (parseComment lib ext fuel input options).
Proof using R_push Ho Hmw Hformat.
  intros Hopts. revert input.
  induction fuel as [|fuel IH]; intros input a b Hab; [done|].
  pose proof Hab as (Ha & Hb & Hma & Hmb & _).
  cbn [parseComment]. rewrite Ha, Hb, Hma, Hmb. cbv zeta.
  destruct (merged_parsers_blind _ Hopts) as (Hslot&_).
  by_relation a b Hab.
  apply related_bind.
  { destruct (p_comment _) as [| |f].
    3:{ apply related_reading.
        intros a' b' (_ & _ & _ & _ & HR). by rewrite (Hslot _ _ HR). }
    all: destruct input as [str|block].
    all: try (apply related_bind; [by apply parse_with_related|];
              intros comments; apply related_ret).
    all: apply related_bind;
      [apply related_reading; intros; by apply tokenize_agree|intros tok].
    all: apply related_bind; [apply related_push_token|intros _].
    all: apply related_bind; [by apply related_reading|intros comment].
    all: apply related_bind;
      [apply related_reading; intros; by apply parseTags_agree|intros tags].
    all: apply related_ret. }
  intros first. apply related_bind.
  { destruct first as [first|]; [|apply related_throw].
    destruct (nonempty _); [|apply related_ret].
    apply related_bind; [|intros inline; apply related_ret].
    apply related_reading. intros.
    by apply parseInlineTags_agree, merged_options_blind. }
  intros second. apply related_bind.
  { destruct (is_true _); [|apply related_ret].
    apply related_reading.
    intros a' b' (_ & _ & _ & _ & HR). by rewrite (Hformat _ _ HR). }
  intros third. apply related_bind; [apply related_emit|].
  intros _. apply related_ret.
Qed.

End NonInterference.


(** *** Enough fuel *)

Lemma finishes_bind {A B} (m : M Node Compiler A) (k : A → M Node Compiler B) :
  finishes m → (∀ x, finishes (k x)) → finishes (mbind m k).
Proof.
  intros Hm Hk this. unfold mbind. specialize (Hm this).
  destruct (m this) as [[x|e] mid|]; [apply Hk|done|done].
Qed.

Lemma finishes_calm {A} (f : Self → Res A) : finishes (reading f).
Proof. by intros this. Qed.

Lemma finishes_ret {A} (x : A) :
  finishes (Node:=Node) (Compiler:=Compiler) (ret x).
Proof. by intros this. Qed.

Lemma finishes_throw {A} e :
  finishes (Node:=Node) (Compiler:=Compiler) (A:=A) (throw e).
Proof. by intros this. Qed.

Lemma finishes_push_token tok :
  finishes (Node:=Node) (Compiler:=Compiler) (push_token tok).
Proof. by intros this. Qed.

Lemma finishes_set_ast comments :
  finishes (Node:=Node) (Compiler:=Compiler) (set_ast comments).
Proof. by intros this. Qed.

Lemma finishes_emit name comment :
  finishes (Node:=Node) (Compiler:=Compiler) (emit name comment).
Proof. by intros this. Qed.

Ltac finishes :=
  repeat first
    [ apply finishes_calm | apply finishes_ret | apply finishes_throw
    | apply finishes_push_token | apply finishes_set_ast | apply finishes_emit
    | apply finishes_bind; [|intros ?]
    | progress cbv zeta | case_match ].

Ltac by_finishes this :=
  match goal with
  | |- ?m this ≠ _ =>
      let Hm := fresh "Hm" in cut (finishes m); [intros Hm; apply Hm|]
  end.

Lemma extract_loop_finishes (fn : Block → M Node Compiler (Comment Tag))
    options blocks res :
  (∀ block, finishes (fn block)) →
  finishes (extract_loop lib fn options blocks res).
Proof.
  intros Hfn. revert res.
  induction blocks as [|block blocks IH]; intros res; cbn [extract_loop].
  { by intros this. }
  apply finishes_bind; [apply finishes_calm|]. intros valid.
  destruct (is_false valid); [apply IH|].
  apply finishes_bind; [apply finishes_calm|]. intros comment.
  apply finishes_bind; [apply Hfn|]. intros parsed. apply IH.
Qed.

Lemma parseComment_block_finishes fuel block options :
  finishes (parseComment lib ext (S fuel) (InBlock block) options).
Proof.
  intros this. cbn [parseComment]. cbv zeta. by_finishes this.
  apply finishes_bind; [|intros first; finishes].
  destruct (p_comment _); finishes.
Qed.

(** Two units of fuel are enough for every call: [parse] calls
    [parseComment] back on comment objects only. *)
Lemma parseComment_finishes fuel input options :
  finishes (parseComment lib ext (S (S fuel)) input options).
Proof.
  destruct input as [str|block]; [|apply parseComment_block_finishes].
  intros this. cbn [parseComment]. cbv zeta. by_finishes this.
  apply finishes_bind; [|intros first; finishes].
  destruct (p_comment _); [| |apply finishes_calm].
  all: apply finishes_bind; [|intros ?; apply finishes_ret].
  all: unfold parse_with; apply finishes_bind; [|intros ?; finishes].
  all: intros this0; unfold extract; cbv zeta; by_finishes this0.
  all: apply finishes_bind; [finishes|intros blocks].
  all: apply extract_loop_finishes; intros block.
  all: apply (parseComment_block_finishes fuel).
Qed.



End Orchestrator.






(** ** More on the dispatcher *)

Section Registration.
Context {Node Compiler : Type} `{!Typed Node}.

Abbreviation Res := (Result Node).
Abbreviation Hooks := (gmap string (list (Handler Node Compiler))).
Abbreviation Self := (Comments Node Compiler).

Lemma rbind_Ok {A} (r : Res A) : rbind r Ok = r.
Proof. by destruct r. Qed.

Lemma pushed_other (table : Hooks) entries type :
  type ∉ entries.*1 → pushed table entries !! type = table !! type.
Proof.
  revert table. induction entries as [|[key fn] entries IH]; intros table Hnot.
  { done. }
  simpl in *. apply not_elem_of_cons in Hnot as [Hne Hnot].
  rewrite IH by done. unfold push_handler. simpl.
  by rewrite lookup_insert_ne.
Qed.

Lemma filter_other (entries : list (string * Handler Node Compiler)) type :
  type ∉ entries.*1 → filter (fun entry => entry.1 = type) entries = [].
Proof.
  induction entries as [|[key fn] entries IH]; intros Hnot; [done|].
  simpl in Hnot. apply not_elem_of_cons in Hnot as [Hne Hnot].
  rewrite filter_cons_False by (simpl; congruence). by apply IH.
Qed.





(** X5: a handler that throws ends the chain with its own error: the
    handlers after it are not called, and one of them that is not a
    function goes unnoticed. *)
Theorem run_handler_throws (this : Self) (phase : Phase) (compiler : Compiler)
    (node node' : Node) done f rest e :
  plugins this phase !! node_type node = Some (done ++ Function f :: rest) →
  run_loop phase compiler done node = Ok node' →
  f compiler node' = Throw e →
  run this phase compiler node = Throw e.
Proof.
  intros Hfns Hdone Hthrow. unfold run. rewrite Hfns. simpl.
  rewrite run_loop_app, Hdone. simpl. by rewrite Hthrow.
Qed.

End Registration.



Lemma run_handler_throws_witness :
  run (foldl (register Before) fresh
         [(OneType "param", upper_name); (OneType "param", boom);
          (OneType "param", NotFunction VNull)])
      Before () (NTag param_tag)
  = Throw (Raised "Error" "boom").
Proof.
  apply (run_handler_throws
           (foldl (register Before) fresh
              [(OneType "param", upper_name); (OneType "param", boom);
               (OneType "param", NotFunction VNull)])
           Before () (NTag param_tag) (NTag (rename param_tag "NAME"))
           [upper_name] (fun _ _ => Throw (Raised "Error" "boom"))
           [NotFunction VNull]);
    reflexivity.
Defined.

(** ** More on options and tags *)

Section Merging.
Context {Node Compiler : Type} `{!Typed Node}.
Context (lib : Lib Node Compiler) (ext : Ext Node).

Abbreviation Res := (Result Node).
Abbreviation Self := (Comments Node Compiler).

Lemma assign_absorb {A} (earlier later : option A) :
  assign earlier (assign earlier later) = assign earlier later.
Proof. by destruct later, earlier. Qed.

Lemma assign_slot_absorb {F} (earlier later : Slot F) :
  assign_slot earlier (assign_slot earlier later) = assign_slot earlier later.
Proof. by destruct later, earlier. Qed.

Lemma assign_options_absorb (earlier later : Options Node Compiler) :
  assign_options earlier (assign_options earlier later)
  = assign_options earlier later.
Proof.
  unfold assign_options, assign_flags. simpl.
  by rewrite !assign_absorb, !assign_slot_absorb.
Qed.

(** X6: every method merges [this.options] into the options it is given,
    and merging them a second time changes nothing: a method called with
    the merged options, as [parseTags] calls [parseTag] and
    [parseComment] calls [tokenize] and [parseInlineTags], does what it
    does when called with the options of the caller. *)
Theorem merged_options_again (this : Self) (options : Options Node Compiler) :
  let opts := assign_options (this_options this) options in
  (∀ line, parseTag lib this line opts = parseTag lib this line options)
  ∧ (∀ comment, parseTags lib this comment opts = parseTags lib this comment options)
  ∧ (∀ str tag, parseType lib this str tag opts = parseType lib this str tag options)
  ∧ (∀ str, parseInlineTags lib this str opts = parseInlineTags lib this str options)
  ∧ (∀ str, parseParamType this str opts = parseParamType this str options)
  ∧ (∀ input, tokenize ext this input opts = tokenize ext this input options).
Proof.
  intros opts. unfold opts.
  assert (Htag : ∀ line,
            parseTag lib this line (assign_options (this_options this) options)
            = parseTag lib this line options).
  { intros line.
    unfold parseTag, parseType, parseTag_finish, parseInlineTags.
    by rewrite !assign_options_absorb. }
  split_and!.
  - exact Htag.
  - intros comment. unfold parseTags. rewrite !assign_options_absorb.
    destruct (p_parseTags _); try done.
    all: generalize (@nil Tag).
    all: induction (c_tags comment) as [|raw lines IH]; intros tags; simpl;
      [done|].
    all: rewrite <- (assign_options_absorb (this_options this) options) at 1.
    all: rewrite Htag.
    all: destruct (parseTag _ _ _ _) as [[tag|]|e]; simpl; by rewrite ?IH.
  - intros [] tag; try done. unfold parseType.
    by rewrite !assign_options_absorb.
  - intros []; try done. unfold parseInlineTags.
    by rewrite !assign_options_absorb.
  - intros []; try done. unfold parseParamType.
    by rewrite !assign_options_absorb.
  - intros input. unfold tokenize. by rewrite !assign_options_absorb.
Qed.

(** X7: an entry of the [parse] object of the options that is not a
    function hides the middleware registered under the same name: the
    method falls back on its default. *)
Theorem not_a_function_hides_middleware (this : Self)
    (options : Options Node Compiler) parse str tag :
  o_parse options = Some parse →
  (p_type parse = NotFn →
     parseType lib this (VStr str) tag options
     = lib_parse_type lib str tag (flags_of this options))
  ∧ (p_inlineTag parse = NotFn →
       parseInlineTags lib this (VStr str) options
       = lib_parse_inline lib str (flags_of this options))
  ∧ (p_paramType parse = NotFn →
       parseParamType this (VStr str) options = Ok (VStr str)).
Proof.
  intros Hparse.
  unfold parseType, parseInlineTags, parseParamType, flags_of. simpl.
  rewrite Hparse. simpl. by split_and!; intros ->.
Qed.

Lemma with_parse_merged (this : Self) other (options : Options Node Compiler)
    parse :
  o_parse options = Some parse →
  assign_options (this_options (with_parse this other)) options
  = assign_options (this_options this) options.
Proof. intros Hparse. unfold assign_options. simpl. by rewrite Hparse. Qed.

(** X8: the [parse] object of a call replaces that of the options of the
    instance as a whole: once a call passes one, the overrides given at
    construction have no effect, also for the names the call's object
    leaves out. *)
Theorem call_parse_replaces_instance_parse (this : Self) other
    (options : Options Node Compiler) parse :
  o_parse options = Some parse →
  (∀ line, parseTag lib (with_parse this other) line options
           = parseTag lib this line options)
  ∧ (∀ str tag, parseType lib (with_parse this other) str tag options
                = parseType lib this str tag options)
  ∧ (∀ str, parseInlineTags lib (with_parse this other) str options
            = parseInlineTags lib this str options).
Proof.
  intros Hparse.
  assert (Hmerged : o_parse (assign_options (this_options this) options)
                    = Some parse).
  { simpl. by rewrite Hparse. }
  split_and!.
  - intros line.
    unfold parseTag, parseType, parseTag_finish, parseInlineTags.
    rewrite !(with_parse_merged this other options parse Hparse).
    by rewrite !(with_parse_merged this other _ parse Hmerged).
  - intros [] tag; try done. unfold parseType.
    by rewrite (with_parse_merged this other options parse Hparse).
  - intros []; try done. unfold parseInlineTags.
    by rewrite (with_parse_merged this other options parse Hparse).
Qed.

End Merging.

Lemma not_a_function_hides_middleware_witness :
  parseType sample_lib objecting (VStr "String") None no_options
  = Ok (TyAst (NameType "Object"))
  ∧ parseType sample_lib objecting (VStr "String") None
      (parse_options (mkParsers Unset Unset Unset Unset NotFn Unset))
    = Ok (TyAst (NameType "String")).
Proof.
  split; [reflexivity|].
  destruct (not_a_function_hides_middleware sample_lib objecting
              (parse_options (mkParsers Unset Unset Unset Unset NotFn Unset))
              (mkParsers Unset Unset Unset Unset NotFn Unset)
              "String" None eq_refl) as (Htype & _).
  etrans; [exact (Htype eq_refl)|reflexivity].
Defined.

Lemma call_parse_replaces_instance_parse_witness :
  parseType sample_lib
    (with_parse fresh
       (Some (mkParsers Unset Unset Unset Unset (Fn always_object) Unset)))
    (VStr "String") None no_options
  = Ok (TyAst (NameType "Object"))
  ∧ parseType sample_lib
      (with_parse fresh
         (Some (mkParsers Unset Unset Unset Unset (Fn always_object) Unset)))
      (VStr "String") None (parse_options no_parsers)
    = Ok (TyAst (NameType "String")).
Proof.
  split; [reflexivity|].
  destruct (call_parse_replaces_instance_parse sample_lib fresh
              (Some (mkParsers Unset Unset Unset Unset (Fn always_object) Unset))
              (parse_options no_parsers) no_parsers eq_refl)
    as (_ & Htype & _).
  etrans; [apply Htype|reflexivity].
Defined.

Section Lines.
Context {Node Compiler : Type} `{!Typed Node}.
Context (lib : Lib Node Compiler).

Abbreviation Res := (Result Node).
Abbreviation Self := (Comments Node Compiler).

(** What [parseTag] does once [lib.parse.tag] gave a tag with a type
    literal that is allowed. *)
Lemma parseTag_with_literal (this : Self) line options tag :
  is_function (p_tag (parsers_of this options)) = false →
  lib_parse_tag lib (as_tok line) = Ok (Some tag) →
  present (t_rawType tag) = true →
  lib_allows_type lib (as_tok line) = true →
  parseTag lib this line options
  = let! type :=
      parseType lib this (VStr (slice_1_m1 (default "" (t_rawType tag))))
                (Some tag) options in
    if lib_expects_type lib (set_type tag type) && negb (has_type type)
    then
      if is_true (prop (strict (flags_of this options)))
      then Ok None
      else parseTag_finish lib this
             (assign_options (this_options this) options) (set_type tag TyNull)
    else parseTag_finish lib this
           (assign_options (this_options this) options) (set_type tag type).
Proof.
  intros Hfn Htag Hraw Hallow.
  rewrite parseTag_default, Htag, Hraw, Hallow by done. cbn [andb negb].
  by destruct (parseType _ _ _ _ _).
Qed.

(** X9: a type literal that parsed to a type is kept: the tag goes on
    to normalization with that type, in strict mode as in any other,
    whether or not its title expects a type. *)
Theorem parseTag_keeps_parsed_type (this : Self) line options tag type :
  is_function (p_tag (parsers_of this options)) = false →
  lib_parse_tag lib (as_tok line) = Ok (Some tag) →
  present (t_rawType tag) = true →
  lib_allows_type lib (as_tok line) = true →
  parseType lib this (VStr (slice_1_m1 (default "" (t_rawType tag))))
            (Some tag) options = Ok (TyAst type) →
  parseTag lib this line options
  = parseTag_finish lib this (assign_options (this_options this) options)
                    (set_type tag (TyAst type)).
Proof.
  intros Hfn Htag Hraw Hallow Htype.
  rewrite (parseTag_with_literal this line options tag) by done.
  rewrite Htype. simpl. by rewrite andb_false_r.
Qed.

(** X10: the test for a missing type reads the parsed type, not the
    literal: a tag that expects a type and whose literal parsed to no
    value is rejected when [strict] is [true] and is given the [null]
    type otherwise, as if it had no literal. *)
Theorem parseTag_literal_without_value (this : Self) line options tag type :
  is_function (p_tag (parsers_of this options)) = false →
  lib_parse_tag lib (as_tok line) = Ok (Some tag) →
  present (t_rawType tag) = true →
  lib_allows_type lib (as_tok line) = true →
  parseType lib this (VStr (slice_1_m1 (default "" (t_rawType tag))))
            (Some tag) options = Ok type →
  has_type type = false →
  lib_expects_type lib (set_type tag type) = true →
  parseTag lib this line options
  = if is_true (prop (strict (flags_of this options)))
    then Ok None
    else parseTag_finish lib this (assign_options (this_options this) options)
                         (set_type tag TyNull).
Proof.
  intros Hfn Htag Hraw Hallow Htype Hnone Hexpects.
  rewrite (parseTag_with_literal this line options tag) by done.
  rewrite Htype. simpl. by rewrite Hexpects, Hnone.
Qed.

Lemma parseTags_default (this : Self) comment options :
  is_function (p_parseTags (parsers_of this options)) = false →
  parseTags lib this comment options
  = parseTags_loop lib this (assign_options (this_options this) options)
                   (c_tags comment) [].
Proof.
  intros Hfn. unfold parseTags, parsers_of in *.
  by destruct (not_function_inv _ Hfn) as [-> | ->].
Qed.

Lemma parseTags_loop_total (this : Self) opts lines tags :
  Forall (fun raw => ∃ r, parseTag lib this raw opts = Ok r) lines →
  parseTags_loop lib this opts lines tags
  = Ok (tags ++ omap (fun raw =>
                        match parseTag lib this raw opts with
                        | Ok (Some tag) => Some (define_raw tag raw)
                        | _ => None
                        end) lines).
Proof.
  intros Hall.
  pose proof (parseTags_loop_spec lib this opts lines tags) as Hspec.
  destruct (parseTags_loop _ _ _ _ _) as [result|e].
  - by destruct Hspec as [_ ->].
  - apply Exists_exists in Hspec as (raw & Hin & Hthrow).
    rewrite Forall_forall in Hall. destruct (Hall raw Hin) as [r Hr]. congruence.
Qed.

Lemma kept_raw_sublist (f : TagLine → option Tag) lines :
  (∀ raw tag, f raw = Some tag → t_raw tag = Some raw) →
  t_raw <$> omap f lines `sublist_of` Some <$> lines.
Proof.
  intros Hf. induction lines as [|raw lines IH]; simpl; [done|].
  destruct (f raw) as [tag|] eqn:Htag; simpl.
  - rewrite (Hf _ _ Htag). by apply sublist_skip.
  - by apply sublist_cons.
Qed.


(** X12: [parseTags] works line by line: the tags of two lists of lines
    put end to end are the tags of the first list followed by those of
    the second. *)
Theorem parseTags_app (this : Self) (comment : Comment TagLine) options
    lines1 lines2 tags1 tags2 :
  is_function (p_parseTags (parsers_of this options)) = false →
  parseTags lib this (set_tags comment lines1) options = Ok tags1 →
  parseTags lib this (set_tags comment lines2) options = Ok tags2 →
  parseTags lib this (set_tags comment (lines1 ++ lines2)) options
  = Ok (tags1 ++ tags2).
Proof.
  intros Hfn H1 H2. rewrite parseTags_default in H1, H2 |- * by done.
  simpl in *.
  pose proof (parseTags_loop_spec lib this
                (assign_options (this_options this) options) lines1 []) as S1.
  pose proof (parseTags_loop_spec lib this
                (assign_options (this_options this) options) lines2 []) as S2.
  rewrite H1 in S1. rewrite H2 in S2.
  destruct S1 as [Hall1 ->], S2 as [Hall2 ->].
  rewrite parseTags_loop_total by (by apply Forall_app).
  simpl. by rewrite omap_app.
Qed.

(** X13: [parseTags] fails with the error of the first line on which
    [parseTag] throws, whatever the lines after it are. *)
Theorem parseTags_first_error (this : Self) comment options good raw rest e :
  is_function (p_parseTags (parsers_of this options)) = false →
  c_tags comment = good ++ raw :: rest →
  Forall (fun raw =>
            ∃ r, parseTag lib this raw
                   (assign_options (this_options this) options) = Ok r) good →
  parseTag lib this raw (assign_options (this_options this) options) = Throw e →
  parseTags lib this comment options = Throw e.
Proof.
  intros Hfn Hlines Hgood Hthrow. rewrite parseTags_default by done.
  rewrite Hlines. clear Hlines. generalize (@nil Tag).
  induction Hgood as [|line good [r Hline] _ IH]; intros tags; simpl.
  - by rewrite Hthrow.
  - rewrite Hline. simpl. destruct r; simpl; apply IH.
Qed.

(** X14: a line that [parseTag] answers with [null] leaves no trace:
    the result is that of the comment without the line. *)
Theorem parseTags_rejected_line (this : Self) (comment : Comment TagLine)
    options before line after :
  is_function (p_parseTags (parsers_of this options)) = false →
  parseTag lib this line (assign_options (this_options this) options) = Ok None →
  parseTags lib this (set_tags comment (before ++ line :: after)) options
  = parseTags lib this (set_tags comment (before ++ after)) options.
Proof.
  intros Hfn Hnull. rewrite !parseTags_default by done. simpl.
  generalize (@nil Tag).
  induction before as [|raw before IH]; intros tags; simpl.
  - by rewrite Hnull.
  - destruct (parseTag lib this raw _) as [[tag|]|err]; simpl; by rewrite ?IH.
Qed.

End Lines.

Lemma parseTag_keeps_parsed_type_witness :
  parseTag sample_lib fresh (LineString "@throws {RangeError} when out of range")
           strict_options
  = Ok (Some (mkTag "throws" "" "when out of range" (Some "{RangeError}")
                    (TyAst (NameType "RangeError")) (Some []) None)).
Proof.
  etrans.
  - apply (parseTag_keeps_parsed_type sample_lib fresh
             (LineString "@throws {RangeError} when out of range") strict_options
             (mkTag "throws" "" "when out of range" (Some "{RangeError}")
                    TyUndefined None None)
             (NameType "RangeError"));
      reflexivity.
  - reflexivity.
Defined.

(** With a [type] middleware that returns nothing, a [param] line with
    a literal is rejected in strict mode and gets the [null] type
    otherwise. *)
Lemma parseTag_literal_without_value_witness :
  parseTag sample_lib undefining (LineString "@param {String} name") strict_options
  = Ok None
  ∧ parseTag sample_lib undefining (LineString "@param {String} name") no_options
    = Ok (Some (mkTag "param" "name" "" (Some "{String}") TyNull None None)).
Proof.
  split.
  - apply (parseTag_literal_without_value sample_lib undefining
             (LineString "@param {String} name") strict_options
             (mkTag "param" "name" "" (Some "{String}") TyUndefined None None)
             TyUndefined);
      reflexivity.
  - etrans.
    + apply (parseTag_literal_without_value sample_lib undefining
               (LineString "@param {String} name") no_options
               (mkTag "param" "name" "" (Some "{String}") TyUndefined None None)
               TyUndefined);
        reflexivity.
    + reflexivity.
Defined.


Lemma parseTags_app_witness :
  ∃ tags1 tags2,
    parseTags sample_lib fresh
      (lines_only [LineString "@param {String} name"]) no_options = Ok tags1
    ∧ parseTags sample_lib fresh
        (lines_only [LineString "@private {string}";
                     LineString "@returns {Number}"]) no_options = Ok tags2
    ∧ parseTags sample_lib fresh
        (lines_only [LineString "@param {String} name";
                     LineString "@private {string}";
                     LineString "@returns {Number}"]) no_options
      = Ok (tags1 ++ tags2).
Proof.
  eexists _, _. split; [vm_compute; reflexivity|].
  split; [vm_compute; reflexivity|].
  apply (parseTags_app sample_lib fresh (lines_only []) no_options
           [LineString "@param {String} name"]
           [LineString "@private {string}"; LineString "@returns {Number}"]);
    [reflexivity|vm_compute; reflexivity|vm_compute; reflexivity].
Defined.

(** In strict mode the unbalanced brace of the second line ends
    [parseTags]; the third line is not looked at. *)
Lemma parseTags_first_error_witness :
  parseTags sample_lib fresh
    (lines_only [LineString "@returns {Number}";
                 LineString "@param {String name";
                 LineString "@param {function(...a} x"]) strict_options
  = Throw (Raised "TagSyntaxError" "unbalanced braces").
Proof.
  apply (parseTags_first_error sample_lib fresh _ strict_options
           [LineString "@returns {Number}"]
           (LineString "@param {String name")
           [LineString "@param {function(...a} x"]);
    [reflexivity|reflexivity| |reflexivity].
  repeat constructor. eexists. vm_compute. reflexivity.
Defined.

(** Outside strict mode the line with the unbalanced brace is as if it
    were not there. *)
Lemma parseTags_rejected_line_witness :
  parseTags sample_lib fresh
    (lines_only [LineString "@returns {Number}";
                 LineString "@param {String name";
                 LineString "@private"]) no_options
  = parseTags sample_lib fresh
      (lines_only [LineString "@returns {Number}"; LineString "@private"])
      no_options.
Proof.
  apply (parseTags_rejected_line sample_lib fresh (lines_only []) no_options
           [LineString "@returns {Number}"]
           (LineString "@param {String name")
           [LineString "@private"]);
    reflexivity.
Defined.

(** ** More on the orchestrator *)

Section Frames.
Context {Node Compiler : Type} `{!Typed Node}.
Context (lib : Lib Node Compiler) (ext : Ext Node).

Abbreviation Res := (Result Node).
Abbreviation Self := (Comments Node Compiler).

Lemma mbind_done {A B} (m : M Node Compiler A) (k : A → M Node Compiler B)
    (this this' : Self) r :
  mbind m k this = Done r this' →
  (∃ e, m this = Done (Throw e) this' ∧ r = Throw e)
  ∨ (∃ x mid, m this = Done (Ok x) mid ∧ k x mid = Done r this').
Proof.
  unfold mbind. destruct (m this) as [[x|e] mid|]; [|naive_solver..].
  intros Hk. right. eauto.
Qed.

Section Preserved.
Context (P : relation Self) (P_order : PreOrder P).
Context (P_push : ∀ tok, preserves P (push_token tok)).
Context (P_emit : ∀ name comment, preserves P (emit name comment)).

Lemma preserves_bind {A B} (m : M Node Compiler A)
    (k : A → M Node Compiler B) :
  preserves P m → (∀ x, preserves P (k x)) → preserves P (mbind m k).
Proof using P_order.
  intros Hm Hk this r this' Hrun.
  apply mbind_done in Hrun as [(e & Hrun & _)|(x & mid & Hrun & Hrest)].
  - by eapply Hm.
  - etrans; [by eapply Hm|by eapply Hk].
Qed.

Lemma preserves_calm {A} (m : M Node Compiler A) : calm m → preserves P m.
Proof using P_order. intros Hm this r this' Hrun. by rewrite (Hm _ _ _ Hrun). Qed.

Ltac preserved :=
  repeat first
    [ apply P_push | apply P_emit
    | apply preserves_calm, calm_reading | apply preserves_calm, calm_ret
    | apply preserves_calm, calm_throw
    | apply preserves_bind; [|intros ?]
    | progress cbv zeta | case_match ].

Lemma parseComment_block_preserves fuel block options :
  preserves P (parseComment lib ext fuel (InBlock block) options).
Proof using P_push P_emit P_order.
  destruct fuel as [|fuel]; [done|].
  intros this r this' Hrun. cbn [parseComment] in Hrun. cbv zeta in Hrun.
  revert Hrun.
  match goal with
  | |- ?m this = _ → _ =>
      cut (preserves P m); [intros Hm Hrun; by eapply Hm|]
  end.
  apply preserves_bind; [|intros first; preserved].
  destruct (p_comment _); preserved.
Qed.

Lemma extract_loop_preserves (fn : Block → M Node Compiler (Comment Tag))
    options blocks res :
  (∀ block, preserves P (fn block)) →
  preserves P (extract_loop lib fn options blocks res).
Proof using P_order.
  intros Hfn. revert res.
  induction blocks as [|block blocks IH]; intros res; cbn [extract_loop].
  { apply preserves_calm, calm_ret. }
  apply preserves_bind; [apply preserves_calm, calm_reading|].
  intros valid. destruct (is_false valid); [apply IH|].
  apply preserves_bind; [apply preserves_calm, calm_reading|].
  intros comment. apply preserves_bind; [apply Hfn|]. intros parsed. apply IH.
Qed.

Lemma extract_preserves (fn : Block → M Node Compiler (Comment Tag)) str options :
  (∀ block, preserves P (fn block)) →
  preserves P (extract lib ext str options fn).
Proof using P_order.
  intros Hfn this r this' Hrun. unfold extract in Hrun. cbv zeta in Hrun.
  revert Hrun.
  match goal with
  | |- ?m this = _ → _ =>
      cut (preserves P m); [intros Hm Hrun; by eapply Hm|]
  end.
  apply preserves_bind; [|intros blocks; by apply extract_loop_preserves].
  destruct (o_extract _); apply preserves_calm, calm_reading.
Qed.

Lemma parseComment_preserves fuel input options :
  (∀ comments, preserves P (set_ast comments)) →
  preserves P (parseComment lib ext fuel input options).
Proof using P_push P_emit P_order.
  intros P_ast.
  destruct input as [str|block]; [|apply parseComment_block_preserves].
  destruct fuel as [|fuel]; [done|].
  intros this r this' Hrun. cbn [parseComment] in Hrun. cbv zeta in Hrun.
  revert Hrun.
  match goal with
  | |- ?m this = _ → _ =>
      cut (preserves P m); [intros Hm Hrun; by eapply Hm|]
  end.
  apply preserves_bind; [|intros first; preserved].
  destruct (p_comment _); [| |apply preserves_calm, calm_reading].
  all: apply preserves_bind; [|intros ?; apply preserves_calm, calm_ret].
  all: unfold parse_with; apply preserves_bind;
    [|intros ?; apply preserves_bind;
       [apply P_ast|intros ?; apply preserves_calm, calm_ret]].
  all: apply extract_preserves; intros block.
  all: apply parseComment_block_preserves.
Qed.

End Preserved.

Lemma same_pipeline_preorder : PreOrder (same_pipeline (Node:=Node) (Compiler:=Compiler)).
Proof.
  split.
  - by intros this.
  - intros a b c (?&?&?&?) (?&?&?&?). unfold same_pipeline. split_and!; congruence.
Qed.

Lemma only_appended_preorder : PreOrder (only_appended (Node:=Node) (Compiler:=Compiler)).
Proof.
  split.
  - by intros this.
  - intros a b c [? ?] [? ?]. split; by etrans.
Qed.

Lemma same_ast_preorder : PreOrder (same_ast (Node:=Node) (Compiler:=Compiler)).
Proof.
  split; [by intros this|]. intros a b c Hab Hbc. unfold same_ast in *. congruence.
Qed.

Lemma same_tokens_preorder : PreOrder (same_tokens (Node:=Node) (Compiler:=Compiler)).
Proof.
  split; [by intros this|]. intros a b c Hab Hbc. unfold same_tokens in *. congruence.
Qed.

Lemma preserves_push_token (P : relation Self) tok :
  (∀ this : Self,
     P this (mkComments (this_options this) (ast this) (tokens this ++ [tok])
               (plugins_middleware this) (plugins_before this)
               (plugins_after this) (emitted this))) →
  preserves P (push_token tok).
Proof. intros HP this r this' Hrun. unfold push_token in Hrun. by simplify_eq. Qed.

Lemma preserves_emit (P : relation Self) name comment :
  (∀ this : Self,
     P this (mkComments (this_options this) (ast this) (tokens this)
               (plugins_middleware this) (plugins_before this)
               (plugins_after this) (emitted this ++ [(name, comment)]))) →
  preserves P (emit name comment).
Proof. intros HP this r this' Hrun. unfold emit in Hrun. by simplify_eq. Qed.

Lemma preserves_set_ast (P : relation Self) comments :
  (∀ this : Self,
     P this (mkComments (this_options this) (Some comments) (tokens this)
               (plugins_middleware this) (plugins_before this)
               (plugins_after this) (emitted this))) →
  preserves P (set_ast comments).
Proof. intros HP this r this' Hrun. unfold set_ast in Hrun. by simplify_eq. Qed.

Lemma parseComment_keeps_pipeline_aux fuel input options (this this' : Self) r :
  parseComment lib ext fuel input options this = Done r this' →
  this_options this' = this_options this.
Proof.
  intros Hrun.
  apply (parseComment_preserves same_pipeline same_pipeline_preorder) in Hrun.
  - by destruct Hrun.
  - intros tok. by apply preserves_push_token.
  - intros name comment. by apply preserves_emit.
  - intros comments. by apply preserves_set_ast.
Qed.



Ltac quiet :=
  repeat first
    [ apply quiet_reading | apply quiet_ret | apply quiet_throw
    | apply quiet_push_token | apply quiet_set_ast
    | apply quiet_bind; [|intros ?] | progress cbv zeta | case_match ].

Ltac use_quiet H :=
  cbv beta in H;
  match type of H with
  | ?m _ = Done _ _ =>
      let Q := fresh "Q" in assert (Q : quiet m) by quiet; apply Q in H
  end.



Lemma isValid_same_options (a b : Self) block options :
  this_options a = this_options b →
  isValid lib a block options = isValid lib b block options.
Proof. intros Hsame. unfold isValid. by rewrite Hsame. Qed.

Lemma extract_loop_none_valid (fn : Block → M Node Compiler (Comment Tag))
    options blocks res (this : Self) :
  Forall (fun block => isValid lib this block options = Ok (VBool false)) blocks →
  extract_loop lib fn options blocks res this = Done (Ok res) this.
Proof.
  induction 1 as [|block blocks Hblock _ IH]; [done|].
  cbn [extract_loop]. unfold mbind at 1, reading at 1. by rewrite Hblock.
Qed.

(** X19: on a string none of whose blocks passes [isValid], the empty
    string among them, [parseComment] throws a [TypeError]: the first
    comment of [parse] is [undefined] and its description is read.
    [this.ast] is then the empty list, and nothing was recorded or
    emitted. *)
Theorem parseComment_no_comment fuel str options (this : Self) blocks :
  is_function (p_comment (parsers_of this options)) = false →
  match o_extract (assign_options (this_options this) options) with
  | Fn extract => extract (view_of this) str (flags_of this options)
  | _ => ext_extract_block ext str (flags_of this options)
  end = Ok blocks →
  Forall (fun block => isValid lib this block options = Ok (VBool false)) blocks →
  ∃ this',
    parseComment lib ext (S fuel) (InString str) options this
    = Done (Throw (TypeError
                     "Cannot read properties of undefined (reading 'description')"))
           this'
    ∧ ast this' = Some []
    ∧ tokens this' = tokens this
    ∧ emitted this' = emitted this.
Proof.
  intros Hfn Hblocks Hnone.
  assert (Hextract : ∀ fn, extract lib ext str options fn this = Done (Ok []) this).
  { intros fn. unfold extract. cbv zeta. unfold flags_of in Hblocks.
    unfold mbind at 1.
    destruct (o_extract _); unfold reading at 1; rewrite Hblocks;
      by apply extract_loop_none_valid. }
  eexists. cbn [parseComment]. cbv zeta. unfold parsers_of in Hfn.
  split.
  - destruct (not_function_inv _ Hfn) as [-> | ->];
      unfold parse_with; unfold mbind at 1 2 3; by rewrite Hextract.
  - done.
Qed.


(** X21: [parse] is all or nothing: when the extraction or the parse of
    one comment throws, [parse] throws and [this.ast] is what it was,
    whatever comments were parsed before. *)
Theorem parse_failure_keeps_ast fuel str options (this this' : Self) e :
  parse lib ext fuel str options this = Done (Throw e) this' →
  ast this' = ast this.
Proof.
  intros Hrun. unfold parse, parse_with in Hrun.
  apply mbind_done in Hrun as [(? & Hrun & _)|(comments & mid & _ & Hrun)].
  - revert Hrun.
    apply (extract_preserves same_ast same_ast_preorder).
    intros block. apply (parseComment_block_preserves same_ast same_ast_preorder).
    + intros tok. by apply preserves_push_token.
    + intros name comment. by apply preserves_emit.
  - by apply mbind_done in Hrun as [(? & Hrun & _)|(? & ? & _ & Hrun)].
Qed.

Lemma extract_loop_length fuel options blocks (this : Self) :
  ∀ res (start : Self) all this',
    this_options start = this_options this →
    extract_loop lib
      (fun comment => parseComment lib ext fuel (InBlock comment) options)
      options blocks res start = Done (Ok all) this' →
    length all
    = (length res
       + length (filter (fun block => passes_isValid lib this options block = true)
                        blocks))%nat.
Proof.
  induction blocks as [|block blocks IH]; intros res start all this' Hsame Hrun.
  { cbn [extract_loop] in Hrun. unfold ret in Hrun. simplify_eq. simpl. lia. }
  cbn [extract_loop] in Hrun.
  apply mbind_ok in Hrun as (valid & mid & Hvalid & Hrun).
  apply reading_ok in Hvalid as [-> Hvalid].
  rewrite (isValid_same_options start this) in Hvalid by done.
  destruct (is_false valid) eqn:Hfalse.
  - rewrite filter_cons_False; [by eapply IH|].
    unfold passes_isValid. by rewrite Hvalid, Hfalse.
  - rewrite filter_cons_True by (unfold passes_isValid; by rewrite Hvalid, Hfalse).
    apply mbind_ok in Hrun as (comment & mid & Hpre & Hrun).
    apply reading_ok in Hpre as [-> _].
    apply mbind_ok in Hrun as (parsed & mid & Hparsed & Hrun).
    apply parseComment_keeps_pipeline_aux in Hparsed.
    apply IH in Hrun; [|congruence].
    rewrite Hrun, length_app. simpl. lia.
Qed.

(** X22: [parse] leaves out the blocks for which [isValid] returns
    [false], and only those: a block for which an [isValid] override
    returns another falsy value is parsed.  The list it returns has one
    comment for each other block. *)
Theorem parse_skips_false_only fuel str options (this this' : Self)
    blocks comments :
  match o_extract (assign_options (this_options this) options) with
  | Fn extract => extract (view_of this) str (flags_of this options)
  | _ => ext_extract_block ext str (flags_of this options)
  end = Ok blocks →
  parse lib ext fuel str options this = Done (Ok comments) this' →
  length comments
  = length (filter (fun block => passes_isValid lib this options block = true)
                   blocks).
Proof.
  intros Hblocks Hrun. unfold parse, parse_with in Hrun.
  apply mbind_ok in Hrun as (all & mid & Hextract & Hrun).
  apply mbind_ok in Hrun as ([] & mid2 & _ & Hrun).
  unfold ret in Hrun. simplify_eq.
  unfold extract in Hextract. cbv zeta in Hextract.
  apply mbind_ok in Hextract as (found & mid0 & Hfound & Hloop).
  unfold flags_of in Hblocks.
  assert (mid0 = this ∧ found = blocks) as [-> ->].
  { destruct (o_extract _); apply reading_ok in Hfound as [-> Hfound];
      split; congruence. }
  by apply (extract_loop_length fuel options blocks this [] this) in Hloop.
Qed.

End Frames.





(** A source text whose only comment is a linter configuration, which
    [isValid] turns down. *)
Lemma parseComment_no_comment_witness :
  ∃ this',
    parseComment sample_lib sample_ext 2 (InString config_source) no_options fresh
    = Done (Throw (TypeError
                     "Cannot read properties of undefined (reading 'description')"))
           this'
    ∧ ast this' = Some []
    ∧ tokens this' = tokens fresh
    ∧ emitted this' = emitted fresh.
Proof.
  eapply (parseComment_no_comment sample_lib sample_ext 1 config_source
            no_options fresh).
  - reflexivity.
  - vm_compute; reflexivity.
  - repeat constructor.
Defined.


(** The first comment was parsed and its event emitted; the second one
    throws, and [this.ast] is not set. *)
Lemma parse_failure_keeps_ast_witness :
  ∃ e this',
    parse sample_lib sample_ext 1 failing_source no_options fresh
    = Done (Throw e) this'
    ∧ length (emitted this') = 1
    ∧ ast this' = ast fresh.
Proof.
  eexists _, _. split; [vm_compute; reflexivity|].
  split; [vm_compute; reflexivity|].
  eapply (parse_failure_keeps_ast sample_lib sample_ext 1 failing_source
            no_options fresh).
  vm_compute; reflexivity.
Defined.

(** Of three blocks the linter configuration is left out by the default
    [isValid]; with an override that returns [undefined] all three are
    parsed. *)
Lemma parse_skips_false_only_witness :
  ∃ blocks comments this' comments2 this2,
    extract_block three_blocks_source no_flags = Ok blocks
    ∧ length blocks = 3
    ∧ parse sample_lib sample_ext 1 three_blocks_source no_options fresh
      = Done (Ok comments) this'
    ∧ length comments = 2
    ∧ parse sample_lib sample_ext 1 three_blocks_source undecided_options fresh
      = Done (Ok comments2) this2
    ∧ length comments2 = 3.
Proof.
  eexists _, _, _, _, _. split; [vm_compute; reflexivity|].
  split; [vm_compute; reflexivity|].
  split; [vm_compute; reflexivity|].
  split.
  { etrans.
    - eapply (parse_skips_false_only sample_lib sample_ext 1 three_blocks_source
                no_options fresh); vm_compute; reflexivity.
    - vm_compute; reflexivity. }
  split; [vm_compute; reflexivity|].
  etrans.
  - eapply (parse_skips_false_only sample_lib sample_ext 1 three_blocks_source
              undecided_options fresh); vm_compute; reflexivity.
  - vm_compute; reflexivity.
Defined.

(** ** More on strings and the static methods *)

Section Strings.
Context {Node Compiler : Type} `{!Typed Node}.
Context (lib : Lib Node Compiler) (ext : Ext Node).

Abbreviation Res := (Result Node).
Abbreviation Self := (Comments Node Compiler).

Lemma assign_options_no_options_r (opts : Options Node Compiler) :
  assign_options opts no_options = opts.
Proof. by destruct opts as [[] ? ? ? ?]. Qed.

Lemma assign_options_no_options_l (opts : Options Node Compiler) :
  assign_options no_options opts = opts.
Proof.
  destruct opts as [[strict format stripStars protected] parse extract pre valid].
  unfold assign_options, assign_flags. simpl.
  by destruct strict, format, stripStars, protected, parse, extract, pre, valid.
Qed.

(** X23: for the default type parser, options given to the static
    [parseType], which makes an instance of them, count as options given
    to [parseType] on an instance made without options. *)
Theorem static_parseType_options (str : Val) (options : Options Node Compiler) :
  is_function (p_type (parsers_of (new_Comments options) no_options)) = false →
  static_parseType lib str options
  = parseType lib (new_Comments no_options) str None options.
Proof.
  unfold static_parseType, parseType, parsers_of. simpl this_options.
  rewrite assign_options_no_options_r, assign_options_no_options_l.
  intros Hfn. destruct str; try done. simpl in *.
  by destruct (not_function_inv _ Hfn) as [-> | ->].
Qed.


End Strings.

Lemma static_parseType_options_witness :
  static_parseType sample_lib (VStr "String|Array=") strict_options
  = parseType sample_lib fresh (VStr "String|Array=") None strict_options.
Proof.
  apply (static_parseType_options sample_lib (VStr "String|Array=") strict_options).
  reflexivity.
Defined.

